(** * Tile mosaic builder (main.py): projection, fetch-with-retry,
      per-tile compositing and the collection loop.

    The development follows the layout of the script:
    - [Projection]: [lat_lon_to_tile] and [get_tiles_in_bbox];
    - [Fetcher]: [get_tile_image] and [get_tile_image_no_cache];
    - [Compositor]: [process_and_composite_tile];
    - [Pipeline]: the module-level code that allocates the canvas and
      collects the finished tiles.

    A Python float is modelled by the real number it stands for and the
    arithmetic on floats by exact arithmetic: rounding is not modelled.
    The exceptions of the arithmetic are kept, as [None]: the domain error
    of [math.log], division by zero, and the overflow of the conversion of
    an integer to a float.  The theorems about the projection are given in
    forms that rounding does not touch: they take the projected
    coordinates as they are returned, or keep to inputs on which the
    computed values stay well inside the bounds that are proved; the
    lemmas that lead to them are facts of the exact arithmetic. *)

From Stdlib Require Import ZArith List Lia Reals Lra String Ascii.
From stdpp Require Import base list gmap strings pretty.

(** ** Projection *)

Module Projection.

Local Open Scope R_scope.

(** [math.radians]. *)
Definition radians (deg : R) : R := deg * PI / 180.

(** [math.log v]: a [ValueError] (math domain error) unless [0 < v]. *)
Definition math_log (v : R) : option R :=
  if Rlt_dec 0 v then Some (ln v) else None.

(** [a / b] on floats: a [ZeroDivisionError] when [b] is zero. *)
Definition py_div (a b : R) : option R :=
  if Req_dec_T b 0 then None else Some (a / b).

(** [2 ** zoom], for the non-negative integer zoom level. *)
Definition grid_size (zoom : nat) : Z := (2 ^ Z.of_nat zoom)%Z.

(** The conversion of the integer [n] to a float in [float * n]: an
    [OverflowError] from [2 ** 1024] on.  The integers converted here are
    powers of two, which a float below that bound holds exactly. *)
Definition int_to_float (n : Z) : option R :=
  if (n <? 2 ^ 1024)%Z then Some (IZR n) else None.

(** [lat_lon_to_tile(lat, lon, zoom)]; [None] when the evaluation of [x]
    or of [y] raises. *)
Definition lat_lon_to_tile (lat lon : R) (zoom : nat) : option (R * R) :=
  match int_to_float (grid_size zoom) with
  | None => None
  | Some n =>
    let x := (lon + 180) / 360 * n in
    match py_div 1 (cos (radians lat)) with
    | None => None
    | Some sec =>
      match math_log (tan (radians lat) + sec) with
      | None => None
      | Some l => Some (x, (1 - l / PI) / 2 * n)
      end
    end
  end.

(** [min(vals)] and [max(vals)] of a list with head [v]. *)
Definition py_minR (v : R) (vals : list R) : R := fold_left Rmin vals v.
Definition py_maxR (v : R) (vals : list R) : R := fold_left Rmax vals v.

(** [max(0, min(v, n - 1))]. *)
Definition clamp (n v : Z) : Z := Z.max 0 (Z.min v (n - 1)).

(** [range(a, b)]. *)
Definition range (a b : Z) : list Z := seqZ a (b - a).

(** [[(x, y) for x in range(start_x, end_x + 1)
             for y in range(start_y, end_y + 1)]]. *)
Definition tile_grid (start_x end_x start_y end_y : Z) : list (Z * Z) :=
  x ← range start_x (end_x + 1);
  y ← range start_y (end_y + 1);
  [(x, y)].

(** The four clamped bounds [(start_x, end_x, start_y, end_y)] that
    [get_tiles_in_bbox] computes before it builds its list. *)
Definition tile_bounds (min_lat max_lat min_lon max_lon : R) (zoom : nat)
  : option (Z * Z * Z * Z) :=
  let '(min_lat, max_lat) :=
    if Rgt_dec min_lat max_lat then (max_lat, min_lat) else (min_lat, max_lat) in
  let '(min_lon, max_lon) :=
    if Rgt_dec min_lon max_lon then (max_lon, min_lon) else (min_lon, max_lon) in
  nw ← lat_lon_to_tile max_lat min_lon zoom;
  ne ← lat_lon_to_tile max_lat max_lon zoom;
  sw ← lat_lon_to_tile min_lat min_lon zoom;
  se ← lat_lon_to_tile min_lat max_lon zoom;
  let x_vals := [ne.1; sw.1; se.1] in
  let y_vals := [ne.2; sw.2; se.2] in
  let start_x := Zfloor (py_minR nw.1 x_vals) in
  let end_x := Zceil (py_maxR nw.1 x_vals) in
  let start_y := Zfloor (py_minR nw.2 y_vals) in
  let end_y := Zceil (py_maxR nw.2 y_vals) in
  let n := grid_size zoom in
  Some (clamp n start_x, clamp n end_x, clamp n start_y, clamp n end_y).

(** [get_tiles_in_bbox(min_lat, max_lat, min_lon, max_lon, zoom)]. *)
Definition get_tiles_in_bbox (min_lat max_lat min_lon max_lon : R) (zoom : nat)
  : option (list (Z * Z)) :=
  '(start_x, end_x, start_y, end_y) ← tile_bounds min_lat max_lat min_lon max_lon zoom;
  Some (tile_grid start_x end_x start_y end_y).

End Projection.

(** ** Exceptions *)

Inductive result (A : Type) : Type :=
| Ok (a : A)
| Raise (exc : string).
Arguments Ok {A} a.
Arguments Raise {A} exc.

(** ** Images

    The part of Pillow's data model that the script relies on.  Pillow
    keeps RGB, RGBA and LA images as four bytes per pixel; a pixel is the
    four bands, and the fourth is the alpha band of an image that has one.
    [info] lists the keys of the image's [info] dictionary. *)

Module Pillow.

Local Open Scope Z_scope.

Record Pixel := mkPixel {
  red : Byte.byte;
  green : Byte.byte;
  blue : Byte.byte;
  alpha : Byte.byte
}.

Record Image := mkImage {
  mode : string;
  info : list string;
  size : Z * Z;
  pixel : Z -> Z -> Pixel
}.

(** Truth value of an image object: the class defines neither [__bool__]
    nor [__len__]. *)
Definition truthy (im : Image) : bool := true.

(** [Image.new(mode, size, color)]. *)
Definition Image_new (m : string) (sz : Z * Z) (color : Pixel) : Image :=
  {| mode := m; info := []; size := sz; pixel := fun _ _ => color |}.

(** The default fill of [Image.new('RGB', size)]. *)
Definition black : Pixel := mkPixel Byte.x00 Byte.x00 Byte.x00 Byte.x00.

(** The value of a band, and the store of an integer into a band. *)
Definition u8 (b : Byte.byte) : Z := Z.of_N (Byte.to_N b).
Definition UINT8 (z : Z) : Byte.byte :=
  match Byte.of_N (Z.to_N (z mod 256)) with
  | Some b => b
  | None => Byte.x00
  end.

(** Pillow's rounding division by 255 and its 8-bit blend,
    [in1*(255-mask) + in2*mask] over 255. *)
Definition DIV255 (a : Z) : Z :=
  let tmp := a + 128 in Z.shiftr (Z.shiftr tmp 8 + tmp) 8.

Definition BLEND8 (mask in1 in2 : Byte.byte) : Byte.byte :=
  UINT8 (DIV255 (u8 in1 * (255 - u8 mask) + u8 in2 * u8 mask)).

Definition blend_pixel (mask : Byte.byte) (out src : Pixel) : Pixel :=
  {| red := BLEND8 mask (red out) (red src);
     green := BLEND8 mask (green out) (green src);
     blue := BLEND8 mask (blue out) (blue src);
     alpha := BLEND8 mask (alpha out) (alpha src) |}.

(** [(x, y)] lies in the rectangle with top-left corner [box] and
    extent [sz]. *)
Definition in_rect (box sz : Z * Z) (x y : Z) : bool :=
  (box.1 <=? x) && (x <? box.1 + sz.1) && (box.2 <=? y) && (y <? box.2 + sz.2).

(** [dst.paste(src, box, mask)]: inside the pasted rectangle (clipped to
    [dst]) a pixel is copied, or blended by the alpha band of [mask];
    elsewhere [dst] is unchanged. *)
Definition paste (dst src : Image) (box : Z * Z) (mask : option Image) : Image :=
  {| mode := mode dst; info := info dst; size := size dst;
     pixel := fun x y =>
       if in_rect box (size src) x y && in_rect (0, 0) (size dst) x y then
         let sx := x - box.1 in
         let sy := y - box.2 in
         match mask with
         | None => pixel src sx sy
         | Some m => blend_pixel (alpha (pixel m sx sy)) (pixel dst x y) (pixel src sx sy)
         end
       else pixel dst x y |}.

(** [im.convert(mode)].  What the conversion does to the pixels belongs
    to the library and is the parameter [convert_data]; it raises when the
    pixel data cannot be loaded or the conversion is not supported. *)
Definition convert (convert_data : string -> Image -> result (Z -> Z -> Pixel))
    (m : string) (im : Image) : result Image :=
  match convert_data m im with
  | Ok data => Ok {| mode := m; info := info im; size := size im; pixel := data |}
  | Raise exc => Raise exc
  end.

(** [im.resize(size, Image.LANCZOS)]; the resampling filter is the
    parameter [resample]. *)
Definition resize (resample : Z * Z -> Image -> Z -> Z -> Pixel)
    (sz : Z * Z) (im : Image) : Image :=
  {| mode := mode im; info := info im; size := sz; pixel := resample sz im |}.

(** Every pixel of the image has alpha [a]. *)
Definition uniform_alpha (a : Byte.byte) (im : Image) : Prop :=
  forall x y, in_rect (0, 0) (size im) x y = true -> alpha (pixel im x y) = a.

(** What the theorems on compositing ask of the library: converting an
    RGBA or LA image to RGBA keeps its alpha band, and resampling an image
    whose alpha band is 0 everywhere, or 255 everywhere, gives such an
    image again. *)
Definition convert_keeps_alpha
    (convert_data : string -> Image -> result (Z -> Z -> Pixel)) : Prop :=
  forall im data,
    mode im ∈ ["RGBA"; "LA"]%string ->
    convert_data "RGBA"%string im = Ok data ->
    forall x y, alpha (data x y) = alpha (pixel im x y).

Definition resample_keeps_alpha (resample : Z * Z -> Image -> Z -> Z -> Pixel) : Prop :=
  forall a sz im,
    a = Byte.x00 \/ a = Byte.xff ->
    0 < (size im).1 -> 0 < (size im).2 ->
    uniform_alpha a im -> uniform_alpha a (resize resample sz im).

End Pillow.

(** ** Tile store and fetcher *)

Module Fetcher.

Import Pillow.

Definition bytes := list Byte.byte.

(** What [requests.get] is called with. *)
Record request := mkRequest {
  req_url : string;
  req_headers : option (list (string * string));
  req_timeout : Z
}.

(** What [requests.get] does: a response with a status code and a body,
    or a [requests.exceptions.RequestException]. *)
Inductive response :=
| Response (status_code : Z) (content : bytes)
| RequestException (msg : string).

Inductive log_line :=
| LogCacheHit (cache_path : string)
| LogDownloaded (url : string)
| LogHttp429 (url : string) (delay : Z)
| LogHttpStatus (status_code : Z) (url : string) (delay : Z)
| LogFetchError (url msg : string) (delay : Z).

(** The state the fetcher acts on: the files of the cache directory, the
    requests issued so far, the [time.sleep] calls so far and the lines
    printed so far (the latest first in each list). *)
Record world := mkWorld {
  fs : gmap string bytes;
  requests : list request;
  sleeps : list Z;
  stdout : list log_line
}.

Definition print (l : log_line) (w : world) : world :=
  {| fs := fs w; requests := requests w; sleeps := sleeps w; stdout := l :: stdout w |}.

Definition sleep (delay : Z) (w : world) : world :=
  {| fs := fs w; requests := requests w; sleeps := delay :: sleeps w; stdout := stdout w |}.

Definition issue (rq : request) (w : world) : world :=
  {| fs := fs w; requests := rq :: requests w; sleeps := sleeps w; stdout := stdout w |}.

(** [cache_path.parent.mkdir(parents=True, exist_ok=True)] followed by
    writing [content] to [cache_path]. *)
Definition write_file (cache_path : string) (content : bytes) (w : world) : world :=
  {| fs := <[cache_path := content]> (fs w); requests := requests w;
     sleeps := sleeps w; stdout := stdout w |}.

Section Fetch.

(** The remote side: the answer to a request, given how many requests
    were issued before it. *)
Variable server : nat -> request -> response.

(** [Image.open] on the bytes of a file or of a response body: the decoded
    image, or the exception raised for bytes that are no image. *)
Variable Image_open : bytes -> result Image.

Definition requests_get (rq : request) (w : world) : response * world :=
  (server (length (requests w)) rq, issue rq w).

(** The [while True] loop of [get_tile_image].  [fuel] bounds the number
    of iterations that are unfolded; [None] means the loop is still
    running after [fuel] iterations. *)
Fixpoint get_tile_image_loop (fuel : nat) (url cache_path : string)
    (headers : option (list (string * string))) (timeout delay : Z) (w : world)
  : option (result Image * world) :=
  match fuel with
  | O => None
  | S fuel' =>
    let '(resp, w1) := requests_get (mkRequest url headers timeout) w in
    match resp with
    | Response status_code content =>
      if (status_code =? 200)%Z then
        let w2 := write_file cache_path content w1 in
        let w3 := print (LogDownloaded url) w2 in
        Some (Image_open content, w3)
      else if (status_code =? 429)%Z then
        let w2 := print (LogHttp429 url delay) w1 in
        get_tile_image_loop fuel' url cache_path headers timeout delay (sleep delay w2)
      else
        let w2 := print (LogHttpStatus status_code url delay) w1 in
        get_tile_image_loop fuel' url cache_path headers timeout delay (sleep delay w2)
    | RequestException e =>
      let w2 := print (LogFetchError url e delay) w1 in
      get_tile_image_loop fuel' url cache_path headers timeout delay (sleep delay w2)
    end
  end.

(** [get_tile_image(url, cache_path, headers, timeout, delay)]. *)
Definition get_tile_image (fuel : nat) (url cache_path : string)
    (headers : option (list (string * string))) (timeout delay : Z) (w : world)
  : option (result Image * world) :=
  match fs w !! cache_path with
  | Some content => Some (Image_open content, print (LogCacheHit cache_path) w)
  | None => get_tile_image_loop fuel url cache_path headers timeout delay w
  end.

(** [get_tile_image_no_cache(url, headers, timeout, delay)]. *)
Fixpoint get_tile_image_no_cache (fuel : nat) (url : string)
    (headers : option (list (string * string))) (timeout delay : Z) (w : world)
  : option (result Image * world) :=
  match fuel with
  | O => None
  | S fuel' =>
    let '(resp, w1) := requests_get (mkRequest url headers timeout) w in
    match resp with
    | Response status_code content =>
      if (status_code =? 200)%Z then
        let w2 := print (LogDownloaded url) w1 in
        Some (Image_open content, w2)
      else if (status_code =? 429)%Z then
        let w2 := print (LogHttp429 url delay) w1 in
        get_tile_image_no_cache fuel' url headers timeout delay (sleep delay w2)
      else
        let w2 := print (LogHttpStatus status_code url delay) w1 in
        get_tile_image_no_cache fuel' url headers timeout delay (sleep delay w2)
    | RequestException e =>
      let w2 := print (LogFetchError url e delay) w1 in
      get_tile_image_no_cache fuel' url headers timeout delay (sleep delay w2)
    end
  end.

End Fetch.

(** The body of a response with status 200; [None] for every response
    the loops retry on (429, any other status, a transport exception). *)
Definition succeeded (resp : response) : option bytes :=
  match resp with
  | Response status_code content => if (status_code =? 200)%Z then Some content else None
  | RequestException _ => None
  end.

(** Counting from the [start]-th request, the attempts before the [k]-th
    fail and the [k]-th is answered 200 with [content]. *)
Definition first_success (server : nat -> request -> response) (rq : request)
    (start k : nat) (content : bytes) : Prop :=
  succeeded (server (start + k)%nat rq) = Some content /\
  forall i, (i < k)%nat -> succeeded (server (start + i)%nat rq) = None.

(** From the [start]-th request on, no attempt is answered 200. *)
Definition always_fails (server : nat -> request -> response) (rq : request)
    (start : nat) : Prop :=
  forall i, succeeded (server (start + i)%nat rq) = None.

(** What a run of a retry loop that ends at its [k]-th attempt leaves
    behind: [k + 1] more requests and [k] more sleeps of [delay] seconds. *)
Definition loop_effect (k : nat) (delay : Z) (w w' : world) : Prop :=
  length (requests w') = (length (requests w) + S k)%nat /\
  sleeps w' = replicate k delay ++ sleeps w.

End Fetcher.

(** ** Compositor *)

Module Compositor.

Import Pillow Fetcher.

Local Open Scope Z_scope.

(** The tuple handed to a unit of work.  The two URL templates are kept
    as the functions that [str.format] makes of them. *)
Record tile_info := mkTileInfo {
  ti_x : Z;
  ti_y : Z;
  ti_zoom : Z;
  ti_TILE_SIZE : Z;
  ti_CACHE_DIR : string;
  ti_OSM_URL : Z -> Z -> Z -> string;
  ti_WPLACE_URL : Z -> Z -> string
}.

(** [Path(CACHE_DIR) / str(zoom) / "osm" / str(x) / f"{y}.png"]. *)
Definition osm_cache_path (cache_dir : string) (zoom x y : Z) : string :=
  cache_dir +:+ "/" +:+ pretty zoom +:+ "/osm/" +:+ pretty x +:+ "/" +:+ pretty y +:+ ".png".

(** The test that sets [custom_tile_used]. *)
Definition has_alpha_or_transparency (overlay : Image) : bool :=
  bool_decide (mode overlay ∈ ["RGBA"; "LA"]%string)
  || (String.eqb (mode overlay) "P" && bool_decide ("transparency"%string ∈ info overlay)).

Definition gray : Pixel := mkPixel Byte.xdc Byte.xdc Byte.xdc Byte.x00.

Section Composite.

Variable server : nat -> request -> response.
Variable Image_open : bytes -> result Image.
Variable convert_data : string -> Image -> result (Z -> Z -> Pixel).
Variable resample : Z * Z -> Image -> Z -> Z -> Pixel.

(** The background branch: [bg.convert('RGB').resize(...)], or the gray
    placeholder. *)
Definition prepare_background (TILE_SIZE : Z) (bg : Image) : result Image :=
  if truthy bg then
    match convert convert_data "RGB" bg with
    | Ok rgb => Ok (resize resample (TILE_SIZE, TILE_SIZE) rgb)
    | Raise exc => Raise exc
    end
  else Ok (Image_new "RGB" (TILE_SIZE, TILE_SIZE) gray).

(** The overlay as it is pasted: converted to RGBA and, when its size
    differs, resized to the tile size. *)
Definition normalise_overlay (TILE_SIZE : Z) (overlay : Image) : result Image :=
  match convert convert_data "RGBA" overlay with
  | Ok rgba =>
    if bool_decide (size rgba ≠ (TILE_SIZE, TILE_SIZE))
    then Ok (resize resample (TILE_SIZE, TILE_SIZE) rgba)
    else Ok rgba
  | Raise exc => Raise exc
  end.

(** The overlay branch: from [custom_tile_used = False] to the paste. *)
Definition composite_overlay (TILE_SIZE : Z) (bg overlay : Image) : result (Image * bool) :=
  if truthy overlay then
    let custom_tile_used := has_alpha_or_transparency overlay in
    match normalise_overlay TILE_SIZE overlay with
    | Ok overlay' => Ok (paste bg overlay' (0, 0) (Some overlay'), custom_tile_used)
    | Raise exc => Raise exc
    end
  else Ok (bg, false).

(** [process_and_composite_tile(tile_info)].  [None]: one of the two
    fetches is still retrying after [fuel] iterations. *)
Definition process_and_composite_tile (fuel : nat) (t : tile_info) (w : world)
  : option (result (Z * Z * Image * bool) * world) :=
  let x := ti_x t in
  let y := ti_y t in
  let TILE_SIZE := ti_TILE_SIZE t in
  let cache_path := osm_cache_path (ti_CACHE_DIR t) (ti_zoom t) x y in
  let osm_url := ti_OSM_URL t (ti_zoom t) x y in
  match get_tile_image server Image_open fuel osm_url cache_path
          (Some [("User-Agent", "meow meow/1.0")]%string) 10 5 w with
  | None => None
  | Some (Raise exc, w1) => Some (Raise exc, w1)
  | Some (Ok bg, w1) =>
    match prepare_background TILE_SIZE bg with
    | Raise exc => Some (Raise exc, w1)
    | Ok bg =>
      let wp_url := ti_WPLACE_URL t x y in
      match get_tile_image_no_cache server Image_open fuel wp_url None 15 5 w1 with
      | None => None
      | Some (Raise exc, w2) => Some (Raise exc, w2)
      | Some (Ok overlay, w2) =>
        match composite_overlay TILE_SIZE bg overlay with
        | Raise exc => Some (Raise exc, w2)
        | Ok (bg, custom_tile_used) => Some (Ok (x, y, bg, custom_tile_used), w2)
        end
      end
    end
  end.

End Composite.

End Compositor.

(** ** Pipeline: the module-level code *)

Module Pipeline.

Import Pillow Fetcher Compositor.

Local Open Scope Z_scope.

Definition min_lat : R := (13870763044489482 / 1000000000000000)%R.
Definition max_lat : R := (13775688622735316 / 1000000000000000)%R.
Definition min_lon : R := (9906565396552733 / 100000000000000)%R.
Definition max_lon : R := (10276180630927732 / 100000000000000)%R.

Definition zoom : nat := 11.

Definition OSM_URL (z x y : Z) : string :=
  "https://tile.openstreetmap.org/" +:+ pretty z +:+ "/" +:+ pretty x +:+ "/"
    +:+ pretty y +:+ ".png".
Definition WPLACE_URL (x y : Z) : string :=
  "https://backend.wplace.live/files/s0/tiles/" +:+ pretty x +:+ "/" +:+ pretty y +:+ ".png".

Definition TILE_SIZE : Z := 1000.
Definition CACHE_DIR : string := "tile_cache".
Definition MAX_WORKERS : Z := 10.

(** [min(vals)] and [max(vals)] on a list of integers; the script calls
    them behind the guard that the list is not empty. *)
Definition py_min (vals : list Z) : Z :=
  match vals with [] => 0 | v :: vs => fold_left Z.min vs v end.
Definition py_max (vals : list Z) : Z :=
  match vals with [] => 0 | v :: vs => fold_left Z.max vs v end.

Inductive line :=
| LogTotal (total : Z)
| LogFinalImage (width height : Z)
| LogFinished (count total x y : Z)
| LogError (coords : Z * Z) (exc : string)
| LogDone (custom_found total : Z).

(** The variables the collection loop updates. *)
Record state := mkState {
  final_image : Image;
  custom_found : Z;
  processed_count : Z;
  printed : list line
}.

(** A finished future, with the task [future_to_tile] records for it and
    what [future.result()] returns or raises. *)
Definition future : Type := tile_info * result (Z * Z * Image * bool).

(** The top-left corner a tile is pasted at. *)
Definition tile_box (min_x min_y x y : Z) : Z * Z :=
  ((x - min_x) * TILE_SIZE, (y - min_y) * TILE_SIZE).

(** One iteration of [for future in as_completed(future_to_tile)]. *)
Definition collect_step (min_x min_y total : Z) (st : state) (fut : future) : state :=
  let processed_count := processed_count st + 1 in
  match fut.2 with
  | Ok (x, y, processed_tile, custom_used) =>
    let printed := LogFinished processed_count total x y :: printed st in
    let custom_found := if custom_used : bool then custom_found st + 1 else custom_found st in
    {| final_image := paste (final_image st) processed_tile (tile_box min_x min_y x y) None;
       custom_found := custom_found;
       processed_count := processed_count;
       printed := printed |}
  | Raise exc =>
    let tile_info := fut.1 in
    {| final_image := final_image st;
       custom_found := custom_found st;
       processed_count := processed_count;
       printed := LogError (ti_x tile_info, ti_y tile_info) exc :: printed st |}
  end.

Inductive run_result :=
| SystemExit (msg : string)
| Saved (st : state).

(** [tasks]: one tuple per tile. *)
Definition task_of (zoom : nat) (t : Z * Z) : tile_info :=
  mkTileInfo t.1 t.2 (Z.of_nat zoom) TILE_SIZE CACHE_DIR OSM_URL WPLACE_URL.
Definition tasks_of (zoom : nat) (tiles : list (Z * Z)) : list tile_info :=
  task_of zoom <$> tiles.

(** The start state of the loop: the canvas just allocated. *)
Definition initial_state (tiles : list (Z * Z)) : state :=
  let x_vals := tiles.*1 in
  let y_vals := tiles.*2 in
  let cols := py_max x_vals - py_min x_vals + 1 in
  let rows := py_max y_vals - py_min y_vals + 1 in
  {| final_image := Image_new "RGB" (cols * TILE_SIZE, rows * TILE_SIZE) black;
     custom_found := 0;
     processed_count := 0;
     printed := [LogFinalImage (cols * TILE_SIZE) (rows * TILE_SIZE);
                 LogTotal (Z.of_nat (length tiles))] |}.

(** The script from [if not tiles] on.  [completed] lists the futures in
    the order [as_completed] yields them. *)
Definition main (tiles : list (Z * Z)) (completed : list future) : run_result :=
  match tiles with
  | [] => SystemExit "no tiles found!"
  | _ =>
    let min_x := py_min (tiles.*1) in
    let min_y := py_min (tiles.*2) in
    let total := Z.of_nat (length tiles) in
    let st := fold_left (collect_step min_x min_y total) completed (initial_state tiles) in
    Saved {| final_image := final_image st;
             custom_found := custom_found st;
             processed_count := processed_count st;
             printed := LogDone (custom_found st) total :: printed st |}
  end.

(** The whole script for a bounding box and zoom level; [None] when
    [get_tiles_in_bbox] raises. *)
Definition run (min_lat max_lat min_lon max_lon : R) (zoom : nat)
    (completed : list future) : option run_result :=
  tiles ← Projection.get_tiles_in_bbox min_lat max_lat min_lon max_lon zoom;
  Some (main tiles completed).

(** The future returned a result whose [custom_used] is set. *)
Definition flagged (fut : future) : bool :=
  match fut.2 with
  | Ok (_, _, _, custom_used) => custom_used
  | Raise _ => false
  end.

(** How many of the futures are flagged. *)
Definition count_flagged (completed : list future) : Z :=
  Z.of_nat (length (List.filter flagged completed)).


Section Executor.

Variable server : nat -> request -> response.
Variable Image_open : bytes -> result Image.
Variable convert_data : string -> Image -> result (Z -> Z -> Pixel).
Variable resample : Z * Z -> Image -> Z -> Z -> Pixel.

(** The future is the outcome of its unit of work: the worker that ran
    [process_and_composite_tile] on the task, from some state of the
    cache and the network, finished with this result. *)
Definition outcome_of_task (fut : future) : Prop :=
  exists fuel w w',
    process_and_composite_tile server Image_open convert_data resample fuel fut.1 w
    = Some (fut.2, w').

(** [completed] holds one finished future per submitted task, in some
    order of completion. *)
Definition as_completed (tasks : list tile_info) (completed : list future) : Prop :=
  completed.*1 ≡ₚ tasks /\ Forall outcome_of_task completed.

End Executor.

End Pipeline.

(** ** Concrete servers, decoders and runs, for the examples *)

Module Scenario.

Import Pillow Fetcher Compositor Pipeline.

Local Open Scope Z_scope.

(** Nothing cached, nothing requested yet. *)
Definition fresh : world := mkWorld ∅ [] [] [].

Definition png : bytes := [Byte.x89; Byte.x50; Byte.x4e; Byte.x47].

(** A server that answers the first request with 500 and every later one
    with 200. *)
Definition flaky (n : nat) (rq : request) : response :=
  match n with
  | O => Response 500 []
  | S _ => Response 200 png
  end.

(** A server that rate-limits every request. *)
Definition rate_limiting (n : nat) (rq : request) : response := Response 429 [].

(** A library whose conversion to RGBA keeps the alpha band of RGBA and
    LA images and makes any other image opaque, and whose resampling tiles
    the source image over the target. *)
Definition keep_data (m : string) (im : Image) : result (Z -> Z -> Pixel) :=
  Ok (fun x y =>
        if bool_decide (mode im ∈ ["RGBA"; "LA"]%string) then pixel im x y
        else mkPixel (red (pixel im x y)) (green (pixel im x y)) (blue (pixel im x y)) Byte.xff).

Definition tiling (sz : Z * Z) (im : Image) (x y : Z) : Pixel :=
  pixel im (x `mod` (size im).1) (y `mod` (size im).2).

(** A decoder that tells three one-pixel images apart by the first byte:
    a transparent red RGBA image, an opaque red RGB image, and a blue RGB
    image for anything else. *)
Definition red_pixel (a : Byte.byte) : Pixel := mkPixel Byte.xff Byte.x00 Byte.x00 a.
Definition blue_pixel : Pixel := mkPixel Byte.x00 Byte.x00 Byte.xff Byte.x00.

Definition open_first_byte (content : bytes) : result Image :=
  match content with
  | Byte.x00 :: _ => Ok (Image_new "RGBA" (1, 1) (red_pixel Byte.x00))
  | Byte.x01 :: _ => Ok (Image_new "RGB" (1, 1) (red_pixel Byte.x00))
  | Byte.x02 :: _ => Raise "cannot identify image file"
  | _ => Ok (Image_new "RGB" (1, 1) blue_pixel)
  end.

(** A server that answers every request with 200; the overlay requests
    (those with the 15-second timeout) get [overlay_body]. *)
Definition serving (overlay_body : bytes) (n : nat) (rq : request) : response :=
  if (req_timeout rq =? 15)%Z then Response 200 overlay_body else Response 200 png.

(** A server whose background tile is no image. *)
Definition broken (n : nat) (rq : request) : response := Response 200 [Byte.x02].

(** The unit of work for tile (0, 0) at zoom 0 against [server], from an
    empty cache, and the future it finishes as. *)
Definition unit_of (server : nat -> request -> response)
  : option (result (Z * Z * Image * bool) * world) :=
  process_and_composite_tile server open_first_byte keep_data tiling 1
    (task_of 0 (0, 0)) fresh.

Definition future_of (server : nat -> request -> response) : future :=
  (task_of 0 (0, 0),
   match unit_of server with
   | Some (r, _) => r
   | None => Raise "still running"
   end).

(** The same for any tile of the zoom-0 task list. *)
Definition future_at (server : nat -> request -> response) (tile : Z * Z) : future :=
  (task_of 0 tile,
   match process_and_composite_tile server open_first_byte keep_data tiling 1
           (task_of 0 tile) fresh with
   | Some (r, _) => r
   | None => Raise "still running"
   end).



(** A decoder that makes a one-byte body a one-pixel red RGBA image with
    that byte as its alpha, and any other body a blue RGB image. *)
Definition open_alpha (content : bytes) : result Image :=
  match content with
  | [a] => Ok (Image_new "RGBA" (1, 1) (red_pixel a))
  | _ => Ok (Image_new "RGB" (1, 1) blue_pixel)
  end.

(** A decoder that yields a one-pixel white RGB image for any bytes. *)
Definition open_white (content : bytes) : result Image :=
  Ok (Image_new "RGB" (1, 1) (mkPixel Byte.xff Byte.xff Byte.xff Byte.x00)).

End Scenario.

(** * Properties *)

(** ** Projection *)

Section ProjectionFacts.

Import Projection.
Local Open Scope R_scope.

Lemma grid_size_pos zoom : (1 <= grid_size zoom)%Z.
Proof. unfold grid_size. pose proof (Z.pow_pos_nonneg 2 (Z.of_nat zoom)). lia. Qed.

Lemma clamp_range n v : (1 <= n)%Z -> (0 <= clamp n v <= n - 1)%Z.
Proof. unfold clamp. lia. Qed.

Lemma clamp_mono n u v : (u <= v)%Z -> (clamp n u <= clamp n v)%Z.
Proof. unfold clamp. lia. Qed.

Lemma py_minR_le v vals : py_minR v vals <= v.
Proof.
  unfold py_minR. revert v.
  induction vals as [|a vals IH]; intros v; simpl; [lra|].
  eapply Rle_trans; [apply IH | apply Rmin_l].
Qed.

Lemma py_maxR_ge v vals : v <= py_maxR v vals.
Proof.
  unfold py_maxR. revert v.
  induction vals as [|a vals IH]; intros v; simpl; [lra|].
  eapply Rle_trans; [apply Rmax_l | apply IH].
Qed.

Lemma floor_min_le_ceil_max v xs : (Zfloor (py_minR v xs) <= Zceil (py_maxR v xs))%Z.
Proof.
  apply le_IZR.
  pose proof (Zfloor_bound (py_minR v xs)).
  pose proof (Zceil_bound (py_maxR v xs)).
  pose proof (py_minR_le v xs). pose proof (py_maxR_ge v xs). lra.
Qed.

Lemma elem_of_range a b k : k ∈ range a b <-> (a <= k < b)%Z.
Proof. unfold range. rewrite elem_of_seqZ. lia. Qed.

Lemma elem_of_tile_grid sx ex sy ey x y :
  (x, y) ∈ tile_grid sx ex sy ey <-> (sx <= x <= ex /\ sy <= y <= ey)%Z.
Proof.
  unfold tile_grid. rewrite list_elem_of_bind. split.
  - intros (x' & Hy & Hx). apply list_elem_of_bind in Hy as (y' & Hxy & Hy).
    apply list_elem_of_singleton in Hxy. inversion Hxy; subst.
    apply elem_of_range in Hx. apply elem_of_range in Hy. lia.
  - intros [Hx Hy]. exists x. split; [|apply elem_of_range; lia].
    apply list_elem_of_bind. exists y. split; [apply list_elem_of_singleton; reflexivity|].
    apply elem_of_range; lia.
Qed.

Lemma tile_grid_nonempty sx ex sy ey :
  (sx <= ex)%Z -> (sy <= ey)%Z -> tile_grid sx ex sy ey <> [].
Proof.
  intros Hx Hy Hnil.
  assert (H : (sx, sy) ∈ tile_grid sx ex sy ey) by (apply elem_of_tile_grid; lia).
  rewrite Hnil in H. inversion H.
Qed.

Lemma tile_bounds_clamped a b c d zoom sx ex sy ey :
  tile_bounds a b c d zoom = Some (sx, ex, sy, ey) ->
  (0 <= sx <= ex /\ ex <= grid_size zoom - 1 /\ 0 <= sy <= ey /\ ey <= grid_size zoom - 1)%Z.
Proof.
  unfold tile_bounds. pose proof (grid_size_pos zoom) as Hn.
  destruct (Rgt_dec a b), (Rgt_dec c d);
    repeat (match goal with
            | |- context [lat_lon_to_tile ?p ?q ?z] => destruct (lat_lon_to_tile p q z) as [[? ?]|]
            end; simpl; try discriminate);
    intros [= <- <- <- <-];
    repeat split;
    try (apply clamp_range; assumption);
    apply clamp_mono; apply (floor_min_le_ceil_max _ [_; _; _]).
Qed.

End ProjectionFacts.

Section MercatorBound.

Local Open Scope R_scope.

Lemma PI_bounds : 314 / 100 < PI < 315 / 100.
Proof.
  pose proof (PI_2_3_7_ineq 1) as H.
  unfold sum_f_R0, tg_alt, PI_2_3_7_tg, Ratan_seq in H. simpl in H. lra.
Qed.

Lemma exp_double_lower y b b' :
  0 < b -> b < exp (y / 2) -> b' <= b * b -> b' < exp y.
Proof.
  intros Hb Hlt Hle.
  replace y with (y / 2 + y / 2) by lra. rewrite exp_plus.
  eapply Rle_lt_trans; [exact Hle|]. nra.
Qed.

Lemma exp_314_lower : 23 < exp (314 / 100).
Proof.
  assert (H0 : 1000766601 / 1000000000 < exp (314 / 100 / 4096)).
  { eapply Rle_lt_trans; [|apply exp_ineq1; lra]. lra. }
  assert (H1 : 1001533789 / 1000000000 < exp (314 / 100 / 2048)).
  { apply (exp_double_lower _ (1000766601 / 1000000000)); [lra | | lra].
    replace (314 / 100 / 2048 / 2) with (314 / 100 / 4096) by lra. exact H0. }
  assert (H2 : 1003069930 / 1000000000 < exp (314 / 100 / 1024)).
  { apply (exp_double_lower _ (1001533789 / 1000000000)); [lra | | lra].
    replace (314 / 100 / 1024 / 2) with (314 / 100 / 2048) by lra. exact H1. }
  assert (H3 : 1006149284 / 1000000000 < exp (314 / 100 / 512)).
  { apply (exp_double_lower _ (1003069930 / 1000000000)); [lra | | lra].
    replace (314 / 100 / 512 / 2) with (314 / 100 / 1024) by lra. exact H2. }
  assert (H4 : 1012336381 / 1000000000 < exp (314 / 100 / 256)).
  { apply (exp_double_lower _ (1006149284 / 1000000000)); [lra | | lra].
    replace (314 / 100 / 256 / 2) with (314 / 100 / 512) by lra. exact H3. }
  assert (H5 : 1024824948 / 1000000000 < exp (314 / 100 / 128)).
  { apply (exp_double_lower _ (1012336381 / 1000000000)); [lra | | lra].
    replace (314 / 100 / 128 / 2) with (314 / 100 / 256) by lra. exact H4. }
  assert (H6 : 1050266174 / 1000000000 < exp (314 / 100 / 64)).
  { apply (exp_double_lower _ (1024824948 / 1000000000)); [lra | | lra].
    replace (314 / 100 / 64 / 2) with (314 / 100 / 128) by lra. exact H5. }
  assert (H7 : 1103059036 / 1000000000 < exp (314 / 100 / 32)).
  { apply (exp_double_lower _ (1050266174 / 1000000000)); [lra | | lra].
    replace (314 / 100 / 32 / 2) with (314 / 100 / 64) by lra. exact H6. }
  assert (H8 : 1216739236 / 1000000000 < exp (314 / 100 / 16)).
  { apply (exp_double_lower _ (1103059036 / 1000000000)); [lra | | lra].
    replace (314 / 100 / 16 / 2) with (314 / 100 / 32) by lra. exact H7. }
  assert (H9 : 1480454368 / 1000000000 < exp (314 / 100 / 8)).
  { apply (exp_double_lower _ (1216739236 / 1000000000)); [lra | | lra].
    replace (314 / 100 / 8 / 2) with (314 / 100 / 16) by lra. exact H8. }
  assert (H10 : 2191745135 / 1000000000 < exp (314 / 100 / 4)).
  { apply (exp_double_lower _ (1480454368 / 1000000000)); [lra | | lra].
    replace (314 / 100 / 4 / 2) with (314 / 100 / 8) by lra. exact H9. }
  assert (H11 : 4803746736 / 1000000000 < exp (314 / 100 / 2)).
  { apply (exp_double_lower _ (2191745135 / 1000000000)); [lra | | lra].
    replace (314 / 100 / 2 / 2) with (314 / 100 / 4) by lra. exact H10. }
  assert (H12 : 23075982703 / 1000000000 < exp (314 / 100 / 1)).
  { apply (exp_double_lower _ (4803746736 / 1000000000)); [lra | | lra].
    replace (314 / 100 / 1 / 2) with (314 / 100 / 2) by lra. exact H11. }
  replace (314 / 100) with (314 / 100 / 1) by lra. lra.
Qed.

Lemma exp_PI_lower : 23 < exp PI.
Proof.
  pose proof PI_bounds. pose proof exp_314_lower.
  pose proof (exp_increasing (314 / 100) PI). lra.
Qed.

Lemma sin_PI_36_lower : 2 / 23 < sin (PI / 36).
Proof.
  pose proof PI_bounds as [Hlo Hhi].
  destruct (SIN (PI / 36)) as [Hlb _]; [lra | lra |].
  eapply Rlt_le_trans; [|exact Hlb].
  unfold sin_lb, sin_approx, sum_f_R0, sin_term. simpl.
  set (a := PI / 36) in *.
  assert (Ha : 314 / 3600 < a < 315 / 3600) by (unfold a; lra).
  assert (0 < a * a < 1 / 100) by nra.
  assert (a * a * a < a / 100) by nra.
  assert (0 < a * a * a) by nra.
  assert (0 < a * a * a * a * a) by nra.
  assert (a * a * a * a * a * a * a < a * a * a * a * a / 100) by nra.
  unfold Rdiv. simpl. lra.
Qed.

End MercatorBound.

Section ProjectionTheorems.

Import Projection.
Local Open Scope R_scope.

Lemma sin_gt_m1 x : 0 < cos x -> -1 < sin x < 1.
Proof.
  intros Hc. pose proof (sin2_cos2 x) as H. unfold Rsqr in H. nra.
Qed.

Lemma int_to_float_grid zoom :
  (zoom < 1024)%nat -> int_to_float (grid_size zoom) = Some (IZR (grid_size zoom)).
Proof.
  intros Hz. unfold int_to_float, grid_size.
  assert (H : (2 ^ Z.of_nat zoom < 2 ^ 1024)%Z) by (apply Z.pow_lt_mono_r; lia).
  apply Z.ltb_lt in H. rewrite H. reflexivity.
Qed.

Lemma int_to_float_overflow zoom :
  (1024 <= zoom)%nat -> int_to_float (grid_size zoom) = None.
Proof.
  intros Hz. unfold int_to_float, grid_size.
  assert (H : (2 ^ 1024 <= 2 ^ Z.of_nat zoom)%Z) by (apply Z.pow_le_mono_r; lia).
  apply Z.ltb_ge in H. rewrite H. reflexivity.
Qed.

(** Where the latitude is strictly between the poles, the argument of
    the logarithm is positive and the projection is defined, up to the
    zoom level at which the grid size no longer converts to a float. *)
Lemma lat_lon_to_tile_defined lat lon zoom :
  -90 < lat < 90 -> (zoom < 1024)%nat ->
  lat_lon_to_tile lat lon zoom =
  Some ((lon + 180) / 360 * IZR (grid_size zoom),
        (1 - ln (tan (radians lat) + 1 / cos (radians lat)) / PI) / 2 * IZR (grid_size zoom)).
Proof.
  intros Hlat Hz. unfold lat_lon_to_tile. rewrite (int_to_float_grid zoom Hz).
  unfold py_div, math_log.
  assert (Hc : 0 < cos (radians lat)).
  { pose proof PI_RGT_0. apply cos_gt_0; unfold radians; nra. }
  destruct (Req_dec_T (cos (radians lat)) 0) as [E|_]; [lra|].
  destruct (Rlt_dec 0 (tan (radians lat) + 1 / cos (radians lat))) as [_|N]; [reflexivity|].
  exfalso. apply N.
  pose proof (sin_gt_m1 _ Hc) as [Hs _].
  unfold tan. replace (sin (radians lat) / cos (radians lat) + 1 / cos (radians lat))
    with ((sin (radians lat) + 1) / cos (radians lat)) by (field; lra).
  apply Rdiv_lt_0_compat; lra.
Qed.

(** What a projection that returned was computed from: [x] from the
    longitude alone, [y] from the latitude alone. *)
Lemma lat_lon_to_tile_inv lat lon zoom x y :
  lat_lon_to_tile lat lon zoom = Some (x, y) ->
  (zoom < 1024)%nat /\
  x = (lon + 180) / 360 * IZR (grid_size zoom) /\
  0 < tan (radians lat) + 1 / cos (radians lat) /\
  y = (1 - ln (tan (radians lat) + 1 / cos (radians lat)) / PI) / 2 * IZR (grid_size zoom).
Proof.
  unfold lat_lon_to_tile.
  destruct (Nat.lt_ge_cases zoom 1024) as [Hz|Hz];
    [rewrite (int_to_float_grid zoom Hz) | rewrite (int_to_float_overflow zoom Hz); discriminate].
  unfold py_div, math_log.
  destruct (Req_dec_T (cos (radians lat)) 0) as [E|_]; [discriminate|].
  destruct (Rlt_dec 0 (tan (radians lat) + 1 / cos (radians lat))) as [Hp|_]; [|discriminate].
  intros [= <- <-]. auto.
Qed.

(** The four corners share their coordinates in pairs. *)
Lemma lat_lon_to_tile_mix a b c d zoom x1 y1 x2 y2 :
  lat_lon_to_tile a c zoom = Some (x1, y1) ->
  lat_lon_to_tile b d zoom = Some (x2, y2) ->
  lat_lon_to_tile a d zoom = Some (x2, y1) /\ lat_lon_to_tile b c zoom = Some (x1, y2).
Proof.
  intros H1 H2. pose proof H1 as H1'. pose proof H2 as H2'.
  apply lat_lon_to_tile_inv in H1' as (Hz & -> & Hp1 & ->).
  apply lat_lon_to_tile_inv in H2' as (_ & -> & Hp2 & ->).
  revert H1 H2. unfold lat_lon_to_tile. rewrite (int_to_float_grid zoom Hz).
  unfold py_div, math_log.
  destruct (Req_dec_T (cos (radians a)) 0); [discriminate|].
  destruct (Req_dec_T (cos (radians b)) 0); [discriminate|].
  destruct (Rlt_dec 0 (tan (radians a) + 1 / cos (radians a))); [|discriminate].
  destruct (Rlt_dec 0 (tan (radians b) + 1 / cos (radians b))); [|discriminate].
  intros _ _. split; reflexivity.
Qed.

Lemma Rmin4 p q :
  Rmin (Rmin (Rmin p q) p) q = Rmin p q /\ Rmin (Rmin (Rmin q p) q) p = Rmin p q /\
  Rmin (Rmin (Rmin p p) q) q = Rmin p q /\ Rmin (Rmin (Rmin q q) p) p = Rmin p q.
Proof. unfold Rmin. repeat split; repeat (destruct (Rle_dec _ _)); lra. Qed.

Lemma Rmax4 p q :
  Rmax (Rmax (Rmax p q) p) q = Rmax p q /\ Rmax (Rmax (Rmax q p) q) p = Rmax p q /\
  Rmax (Rmax (Rmax p p) q) q = Rmax p q /\ Rmax (Rmax (Rmax q q) p) p = Rmax p q.
Proof. unfold Rmax. repeat split; repeat (destruct (Rle_dec _ _)); lra. Qed.

(** The range in terms of two opposite corners of the box as it is given:
    it runs from the floor of the smaller to the ceiling of the larger
    projected coordinate, each clamped. *)
Lemma tile_bounds_of_corners a b c d zoom x1 y1 x2 y2 :
  lat_lon_to_tile a c zoom = Some (x1, y1) ->
  lat_lon_to_tile b d zoom = Some (x2, y2) ->
  tile_bounds a b c d zoom
  = Some (clamp (grid_size zoom) (Zfloor (Rmin x1 x2)),
          clamp (grid_size zoom) (Zceil (Rmax x1 x2)),
          clamp (grid_size zoom) (Zfloor (Rmin y1 y2)),
          clamp (grid_size zoom) (Zceil (Rmax y1 y2))).
Proof.
  intros H1 H2.
  destruct (lat_lon_to_tile_mix _ _ _ _ _ _ _ _ _ H1 H2) as [H3 H4].
  destruct (Rmin4 x1 x2) as (Ex1 & Ex2 & Ex3 & Ex4).
  destruct (Rmax4 x1 x2) as (Fx1 & Fx2 & Fx3 & Fx4).
  destruct (Rmin4 y1 y2) as (Ey1 & Ey2 & Ey3 & Ey4).
  destruct (Rmax4 y1 y2) as (Fy1 & Fy2 & Fy3 & Fy4).
  unfold tile_bounds.
  destruct (Rgt_dec a b), (Rgt_dec c d); rewrite H1, H2, H3, H4; simpl;
    unfold py_minR, py_maxR; simpl;
    rewrite ?Ex1, ?Ex2, ?Ex3, ?Ex4, ?Fx1, ?Fx2, ?Fx3, ?Fx4,
            ?Ey1, ?Ey2, ?Ey3, ?Ey4, ?Fy1, ?Fy2, ?Fy3, ?Fy4; reflexivity.
Qed.

(** A range that was returned had its corners projected. *)
Lemma tile_bounds_corners_defined a b c d zoom bounds :
  tile_bounds a b c d zoom = Some bounds ->
  exists x1 y1 x2 y2,
    lat_lon_to_tile a c zoom = Some (x1, y1) /\ lat_lon_to_tile b d zoom = Some (x2, y2).
Proof.
  unfold tile_bounds.
  destruct (Rgt_dec a b), (Rgt_dec c d);
    repeat (match goal with
            | |- context [lat_lon_to_tile ?p ?q ?z] =>
              destruct (lat_lon_to_tile p q z) as [[? ?]|] eqn:?
            end; simpl; try discriminate);
    intros _; eauto 10.
Qed.

Lemma tile_bounds_defined a b c d zoom :
  -90 < a < 90 -> -90 < b < 90 -> (zoom < 1024)%nat ->
  exists bounds, tile_bounds a b c d zoom = Some bounds.
Proof.
  intros Ha Hb Hz.
  pose proof (lat_lon_to_tile_defined a c zoom Ha Hz) as H1.
  pose proof (lat_lon_to_tile_defined b d zoom Hb Hz) as H2.
  rewrite (tile_bounds_of_corners _ _ _ _ _ _ _ _ _ H1 H2). eauto.
Qed.

Lemma get_tiles_in_bbox_inv a b c d zoom tiles :
  get_tiles_in_bbox a b c d zoom = Some tiles ->
  exists sx ex sy ey,
    tile_bounds a b c d zoom = Some (sx, ex, sy, ey) /\ tiles = tile_grid sx ex sy ey.
Proof.
  unfold get_tiles_in_bbox.
  destruct (tile_bounds a b c d zoom) as [[[[sx ex] sy] ey]|]; simpl; [|discriminate].
  intros [= <-]. eauto 10.
Qed.




(** The box from the antimeridian to the prime meridian on the equator,
    at zoom 1, selects the two tiles of the lower row. *)
Lemma tile_bounds_two_tiles : tile_bounds 0 0 (-180) 0 1 = Some (0, 1, 1, 1)%Z.
Proof.
  assert (Hy : (1 - ln (tan (radians 0) + 1 / cos (radians 0)) / PI) / 2 * IZR (grid_size 1)
               = 1).
  { replace (radians 0) with 0 by (unfold radians; lra).
    rewrite cos_0, tan_0. replace (0 + 1 / 1) with 1 by lra. rewrite ln_1.
    unfold grid_size. change (2 ^ Z.of_nat 1)%Z with 2%Z.
    unfold Rdiv. rewrite Rmult_0_l. lra. }
  assert (E1 : lat_lon_to_tile 0 (-180) 1 = Some (0, 1)).
  { rewrite lat_lon_to_tile_defined by (lra || lia). rewrite Hy.
    f_equal. f_equal. lra. }
  assert (E2 : lat_lon_to_tile 0 0 1 = Some (1, 1)).
  { rewrite lat_lon_to_tile_defined by (lra || lia). rewrite Hy.
    f_equal. f_equal. unfold grid_size. change (2 ^ Z.of_nat 1)%Z with 2%Z. lra. }
  rewrite (tile_bounds_of_corners _ _ _ _ _ _ _ _ _ E1 E2).
  rewrite (Rmin_left 0 1), (Rmax_right 0 1), (Rmin_left 1 1), (Rmax_left 1 1) by lra.
  rewrite (Zfloor_eq 0 0), (Zfloor_eq 1 1), (Zceil_eq 1 1) by (simpl; lra).
  reflexivity.
Qed.



(** C6: swapping the two latitudes, or the two longitudes, leaves the
    clamped bounds and the tile list unchanged. *)
Theorem tile_range_order_invariant (a b c d : R) (zoom : nat) :
  tile_bounds b a c d zoom = tile_bounds a b c d zoom /\
  tile_bounds a b d c zoom = tile_bounds a b c d zoom /\
  get_tiles_in_bbox b a c d zoom = get_tiles_in_bbox a b c d zoom /\
  get_tiles_in_bbox a b d c zoom = get_tiles_in_bbox a b c d zoom.
Proof.
  assert (Hlat : tile_bounds b a c d zoom = tile_bounds a b c d zoom).
  { unfold tile_bounds.
    destruct (Rgt_dec b a), (Rgt_dec a b); try reflexivity; try lra.
    assert (a = b) by lra. subst. reflexivity. }
  assert (Hlon : tile_bounds a b d c zoom = tile_bounds a b c d zoom).
  { unfold tile_bounds.
    destruct (Rgt_dec d c), (Rgt_dec c d); try reflexivity; try lra.
    assert (c = d) by lra. subst. reflexivity. }
  unfold get_tiles_in_bbox. rewrite Hlat, Hlon. auto.
Qed.

End ProjectionTheorems.

Section ProjectTheorem.

Import Projection.
Local Open Scope R_scope.

Lemma cos_lower_85 x : - (17 * PI / 36) < x < 17 * PI / 36 -> 2 / 23 < cos x.
Proof.
  intros Hx. pose proof PI_bounds as [Hlo Hhi].
  assert (Hpos : forall u, 0 <= u < 17 * PI / 36 -> 2 / 23 < cos u).
  { intros u Hu.
    eapply Rlt_trans; [apply sin_PI_36_lower|].
    rewrite <- cos_shift.
    replace (PI / 2 - PI / 36) with (17 * PI / 36) by field.
    apply cos_decreasing_1; lra. }
  destruct (Rle_dec 0 x) as [H0|H0].
  - apply Hpos; lra.
  - rewrite <- cos_neg. apply Hpos; lra.
Qed.

Lemma mercator_bound x :
  - (17 * PI / 36) < x < 17 * PI / 36 ->
  - PI < ln (tan x + 1 / cos x) < PI.
Proof.
  intros Hx. pose proof (cos_lower_85 x Hx) as Hc.
  assert (Hc0 : 0 < cos x) by lra.
  pose proof (sin_gt_m1 x Hc0) as [Hs1 Hs2].
  pose proof (sin2_cos2 x) as Hsc. unfold Rsqr in Hsc.
  pose proof exp_PI_lower as HeP.
  set (t := tan x + 1 / cos x).
  assert (Et : t = (1 + sin x) / cos x) by (unfold t, tan; field; lra).
  assert (Ht0 : 0 < t) by (rewrite Et; apply Rdiv_lt_0_compat; lra).
  assert (Hinv : t * ((1 - sin x) / cos x) = 1).
  { rewrite Et. field_simplify; [|lra].
    replace (- sin x ^ 2 + 1) with (cos x ^ 2) by (simpl; lra). field. lra. }
  assert (Hup : forall s, 0 < s <= 2 -> s / cos x < exp PI).
  { intros s Hs. eapply Rlt_trans; [|exact HeP].
    apply (Rmult_lt_reg_r (cos x)); [lra|].
    unfold Rdiv. rewrite Rmult_assoc, Rinv_l by lra. nra. }
  split.
  - assert (Ht' : 0 < (1 - sin x) / cos x < exp PI).
    { split; [apply Rdiv_lt_0_compat; lra | apply Hup; lra]. }
    assert (Hlow : exp (- PI) < t).
    { rewrite exp_Ropp.
      apply (Rmult_lt_reg_r (exp PI)); [apply exp_pos|].
      rewrite Rinv_l by (pose proof (exp_pos PI); lra).
      rewrite <- Hinv. apply Rmult_lt_compat_l; [lra|]. apply Ht'. }
    rewrite <- (ln_exp (- PI)). apply ln_increasing; [apply exp_pos | exact Hlow].
  - rewrite <- (ln_exp PI) at 1. apply ln_increasing; [exact Ht0|].
    rewrite Et. apply Hup; lra.
Qed.

(** C7, as stated, fails on the antimeridian: longitude 180 projects to
    [x = 2^zoom], which is outside the half-open interval. *)
Lemma project_antimeridian_out_of_range :
  exists x y, lat_lon_to_tile 0 180 0 = Some (x, y) /\ ~ x < IZR (grid_size 0).
Proof.
  rewrite lat_lon_to_tile_defined by (lra || lia).
  eexists _, _. split; [reflexivity|].
  unfold grid_size. simpl. lra.
Qed.

(** C7 (amended): for a latitude strictly between -85 and 85 degrees, a
    longitude in [-180, 180] and a zoom level up to 1023,
    [lat_lon_to_tile] returns [x] in the closed interval [0, 2^zoom] and
    [y] in [0, 2^zoom). *)
Theorem project_in_grid (lat lon : R) (zoom : nat) :
  -85 < lat < 85 -> -180 <= lon <= 180 -> (zoom < 1024)%nat ->
  exists x y,
    lat_lon_to_tile lat lon zoom = Some (x, y) /\
    0 <= x <= IZR (grid_size zoom) /\ 0 <= y < IZR (grid_size zoom).
Proof.
  intros Hlat Hlon Hz.
  rewrite lat_lon_to_tile_defined by (lra || lia).
  eexists _, _. split; [reflexivity|].
  assert (Hn : 0 < IZR (grid_size zoom)).
  { apply IZR_lt. pose proof (grid_size_pos zoom). lia. }
  pose proof PI_RGT_0 as Hpi.
  assert (Hx : - (17 * PI / 36) < radians lat < 17 * PI / 36) by (unfold radians; nra).
  pose proof (mercator_bound _ Hx) as [Hl1 Hl2].
  set (l := ln (tan (radians lat) + 1 / cos (radians lat))) in *.
  assert (Hq : -1 < l / PI < 1).
  { split.
    - apply (Rmult_lt_reg_r PI); [lra|]. unfold Rdiv. rewrite Rmult_assoc, Rinv_l by lra. lra.
    - apply (Rmult_lt_reg_r PI); [lra|]. unfold Rdiv. rewrite Rmult_assoc, Rinv_l by lra. lra. }
  split; split; nra.
Qed.

Lemma project_in_grid_witness :
  exists x y,
    lat_lon_to_tile 60 180 4 = Some (x, y) /\
    0 <= x <= IZR (grid_size 4) /\ 0 <= y < IZR (grid_size 4).
Proof. apply (project_in_grid 60 180 4); lra || lia. Defined.

End ProjectTheorem.
(** ** Fetcher *)

Section FetcherFacts.

Import Pillow Fetcher.

Variable server : nat -> request -> response.
Variable Image_open : bytes -> result Image.

Implicit Types (w : world) (url cache_path : string) (delay timeout : Z).

Lemma first_success_0 rq start content :
  succeeded (server start rq) = Some content ->
  first_success server rq start 0 content.
Proof.
  intros H. split; [rewrite Nat.add_0_r; exact H | intros i Hi; lia].
Qed.

Lemma first_success_S rq start k content :
  succeeded (server start rq) = None ->
  first_success server rq (S start) k content ->
  first_success server rq start (S k) content.
Proof.
  intros H0 [Hk Hlt]. split.
  - rewrite <- Nat.add_succ_comm. exact Hk.
  - intros [|i] Hi; [rewrite Nat.add_0_r; exact H0|].
    rewrite <- Nat.add_succ_comm. apply Hlt. lia.
Qed.

Lemma first_success_inv rq start k content :
  first_success server rq start (S k) content ->
  succeeded (server start rq) = None /\ first_success server rq (S start) k content.
Proof.
  intros [Hk Hlt]. split.
  - specialize (Hlt 0%nat). rewrite Nat.add_0_r in Hlt. apply Hlt. lia.
  - split.
    + rewrite Nat.add_succ_comm. exact Hk.
    + intros i Hi. rewrite Nat.add_succ_comm. apply Hlt. lia.
Qed.


Ltac attempt_cases H :=
  simpl; unfold requests_get;
  match goal with
  | |- context [server ?n ?rq] =>
    destruct (server n rq) as [code body|msg] eqn:Eresp; simpl in H;
    [destruct (code =? 200)%Z eqn:E200; [|destruct (code =? 429)%Z eqn:E429]|]
  end.

Lemma world_after_failure delay line rq w :
  length (requests (sleep delay (print line (issue rq w)))) = S (length (requests w)) /\
  sleeps (sleep delay (print line (issue rq w))) = delay :: sleeps w /\
  fs (sleep delay (print line (issue rq w))) = fs w.
Proof. repeat split. Qed.

(** A failed attempt: the loop sleeps [delay] and goes round again. *)
Lemma cached_loop_retries fuel url cache_path headers timeout delay w :
  succeeded (server (length (requests w)) (mkRequest url headers timeout)) = None ->
  exists line,
    get_tile_image_loop server Image_open (S fuel) url cache_path headers timeout delay w =
    get_tile_image_loop server Image_open fuel url cache_path headers timeout delay
      (sleep delay (print line (issue (mkRequest url headers timeout) w))).
Proof.
  intros H. attempt_cases H; try discriminate; eexists; reflexivity.
Qed.

Lemma uncached_loop_retries fuel url headers timeout delay w :
  succeeded (server (length (requests w)) (mkRequest url headers timeout)) = None ->
  exists line,
    get_tile_image_no_cache server Image_open (S fuel) url headers timeout delay w =
    get_tile_image_no_cache server Image_open fuel url headers timeout delay
      (sleep delay (print line (issue (mkRequest url headers timeout) w))).
Proof.
  intros H. attempt_cases H; try discriminate; eexists; reflexivity.
Qed.

Lemma loop_effect_0 delay rq w' w :
  requests w' = rq :: requests w -> sleeps w' = sleeps w -> loop_effect 0 delay w w'.
Proof. intros Hr Hs. split; [rewrite Hr; simpl; lia | rewrite Hs; reflexivity]. Qed.

Lemma loop_effect_S k delay line rq w w' :
  loop_effect k delay (sleep delay (print line (issue rq w))) w' ->
  loop_effect (S k) delay w w'.
Proof.
  intros [Hr Hs]. split.
  - rewrite Hr. simpl. lia.
  - rewrite Hs. change (sleeps (sleep delay (print line (issue rq w)))) with ([delay] ++ sleeps w).
    rewrite app_assoc, <- replicate_cons_app. reflexivity.
Qed.

(** With a first 200 at attempt [k], [k + 1] iterations suffice. *)
Lemma cached_loop_returns k : forall fuel url cache_path headers timeout delay w content,
  first_success server (mkRequest url headers timeout) (length (requests w)) k content ->
  (k < fuel)%nat ->
  exists w',
    get_tile_image_loop server Image_open fuel url cache_path headers timeout delay w
    = Some (Image_open content, w') /\
    fs w' = <[cache_path := content]> (fs w) /\ loop_effect k delay w w'.
Proof.
  induction k as [|k IH]; intros fuel url cache_path headers timeout delay w content Hfs Hlt;
    (destruct fuel as [|fuel]; [lia|]).
  - destruct Hfs as [H _]. rewrite Nat.add_0_r in H.
    attempt_cases H; try discriminate. injection H as <-.
    eexists. split; [reflexivity|]. split; [reflexivity|].
    apply (loop_effect_0 _ (mkRequest url headers timeout)); reflexivity.
  - apply first_success_inv in Hfs as [H0 Hk].
    destruct (cached_loop_retries fuel url cache_path headers timeout delay w H0) as [line ->].
    destruct (IH fuel url cache_path headers timeout delay
                (sleep delay (print line (issue (mkRequest url headers timeout) w))) content)
      as (w' & Hrun & Hfs' & Heff); [exact Hk | lia |].
    exists w'. split; [exact Hrun|]. split; [exact Hfs'|].
    eapply loop_effect_S; exact Heff.
Qed.

Lemma uncached_loop_returns k : forall fuel url headers timeout delay w content,
  first_success server (mkRequest url headers timeout) (length (requests w)) k content ->
  (k < fuel)%nat ->
  exists w',
    get_tile_image_no_cache server Image_open fuel url headers timeout delay w
    = Some (Image_open content, w') /\
    fs w' = fs w /\ loop_effect k delay w w'.
Proof.
  induction k as [|k IH]; intros fuel url headers timeout delay w content Hfs Hlt;
    (destruct fuel as [|fuel]; [lia|]).
  - destruct Hfs as [H _]. rewrite Nat.add_0_r in H.
    attempt_cases H; try discriminate. injection H as <-.
    eexists. split; [reflexivity|]. split; [reflexivity|].
    apply (loop_effect_0 _ (mkRequest url headers timeout)); reflexivity.
  - apply first_success_inv in Hfs as [H0 Hk].
    destruct (uncached_loop_retries fuel url headers timeout delay w H0) as [line ->].
    destruct (IH fuel url headers timeout delay
                (sleep delay (print line (issue (mkRequest url headers timeout) w))) content)
      as (w' & Hrun & Hfs' & Heff); [exact Hk | lia |].
    exists w'. split; [exact Hrun|]. split; [exact Hfs'|].
    eapply loop_effect_S; exact Heff.
Qed.

(** A loop that has returned has seen a 200, at its last attempt. *)
Lemma cached_loop_inv fuel : forall url cache_path headers timeout delay w r w',
  get_tile_image_loop server Image_open fuel url cache_path headers timeout delay w = Some (r, w') ->
  exists k content,
    (k < fuel)%nat /\
    first_success server (mkRequest url headers timeout) (length (requests w)) k content /\
    r = Image_open content /\
    fs w' = <[cache_path := content]> (fs w) /\ loop_effect k delay w w'.
Proof.
  induction fuel as [|fuel IH]; intros url cache_path headers timeout delay w r w' Hrun;
    [discriminate|].
  destruct (succeeded (server (length (requests w)) (mkRequest url headers timeout)))
    as [content|] eqn:Hs.
  - exists 0%nat, content.
    destruct (cached_loop_returns 0 (S fuel) url cache_path headers timeout delay w content)
      as (w1 & Hrun1 & Hfs1 & Heff1); [apply first_success_0; exact Hs | lia |].
    rewrite Hrun1 in Hrun. injection Hrun as <- <-.
    split; [lia|]. split; [apply first_success_0; exact Hs|]. auto.
  - destruct (cached_loop_retries fuel url cache_path headers timeout delay w Hs) as [line E].
    rewrite E in Hrun. apply IH in Hrun as (k & content & Hk & Hfs & Hr & Hfs' & Heff).
    exists (S k), content. split; [lia|].
    split; [apply first_success_S; [exact Hs | exact Hfs]|].
    split; [exact Hr|]. split; [exact Hfs'|]. eapply loop_effect_S; exact Heff.
Qed.

Lemma uncached_loop_inv fuel : forall url headers timeout delay w r w',
  get_tile_image_no_cache server Image_open fuel url headers timeout delay w = Some (r, w') ->
  exists k content,
    (k < fuel)%nat /\
    first_success server (mkRequest url headers timeout) (length (requests w)) k content /\
    r = Image_open content /\
    fs w' = fs w /\ loop_effect k delay w w'.
Proof.
  induction fuel as [|fuel IH]; intros url headers timeout delay w r w' Hrun;
    [discriminate|].
  destruct (succeeded (server (length (requests w)) (mkRequest url headers timeout)))
    as [content|] eqn:Hs.
  - exists 0%nat, content.
    destruct (uncached_loop_returns 0 (S fuel) url headers timeout delay w content)
      as (w1 & Hrun1 & Hfs1 & Heff1); [apply first_success_0; exact Hs | lia |].
    rewrite Hrun1 in Hrun. injection Hrun as <- <-.
    split; [lia|]. split; [apply first_success_0; exact Hs|]. auto.
  - destruct (uncached_loop_retries fuel url headers timeout delay w Hs) as [line E].
    rewrite E in Hrun. apply IH in Hrun as (k & content & Hk & Hfs & Hr & Hfs' & Heff).
    exists (S k), content. split; [lia|].
    split; [apply first_success_S; [exact Hs | exact Hfs]|].
    split; [exact Hr|]. split; [exact Hfs'|]. eapply loop_effect_S; exact Heff.
Qed.

Lemma always_fails_next rq start :
  always_fails server rq start -> always_fails server rq (S start).
Proof. intros H i. rewrite Nat.add_succ_comm. apply H. Qed.

(** Without a 200 the loops are still running after any number of
    iterations. *)
Lemma cached_loop_never fuel : forall url cache_path headers timeout delay w,
  always_fails server (mkRequest url headers timeout) (length (requests w)) ->
  get_tile_image_loop server Image_open fuel url cache_path headers timeout delay w = None.
Proof.
  induction fuel as [|fuel IH]; intros url cache_path headers timeout delay w Hall;
    [reflexivity|].
  pose proof (Hall 0%nat) as H0. rewrite Nat.add_0_r in H0.
  destruct (cached_loop_retries fuel url cache_path headers timeout delay w H0) as [line ->].
  apply IH. simpl. apply always_fails_next. exact Hall.
Qed.

Lemma uncached_loop_never fuel : forall url headers timeout delay w,
  always_fails server (mkRequest url headers timeout) (length (requests w)) ->
  get_tile_image_no_cache server Image_open fuel url headers timeout delay w = None.
Proof.
  induction fuel as [|fuel IH]; intros url headers timeout delay w Hall;
    [reflexivity|].
  pose proof (Hall 0%nat) as H0. rewrite Nat.add_0_r in H0.
  destruct (uncached_loop_retries fuel url headers timeout delay w H0) as [line ->].
  apply IH. simpl. apply always_fails_next. exact Hall.
Qed.

End FetcherFacts.

Section FetcherTheorems.

Import Pillow Fetcher.

Lemma get_tile_image_hit server Image_open fuel url cache_path headers timeout delay w content :
  fs w !! cache_path = Some content ->
  get_tile_image server Image_open fuel url cache_path headers timeout delay w
  = Some (Image_open content, print (LogCacheHit cache_path) w).
Proof. intros H. unfold get_tile_image. rewrite H. reflexivity. Qed.

Lemma get_tile_image_miss server Image_open fuel url cache_path headers timeout delay w :
  fs w !! cache_path = None ->
  get_tile_image server Image_open fuel url cache_path headers timeout delay w
  = get_tile_image_loop server Image_open fuel url cache_path headers timeout delay w.
Proof. intros H. unfold get_tile_image. rewrite H. reflexivity. Qed.

(** C3, as stated, fails: with a server that answers 500 and then 200, two
    calls for the same key issue two requests, not one. *)
Lemma cached_fetch_two_requests :
  exists r1 w1 r2 w2,
    get_tile_image Scenario.flaky Scenario.open_white 5 "u" "p" None 10 5 Scenario.fresh
    = Some (r1, w1) /\
    get_tile_image Scenario.flaky Scenario.open_white 5 "u" "p" None 10 5 w1
    = Some (r2, w2) /\
    length (requests w2) = 2%nat.
Proof. eexists _, _, _, _. split; [reflexivity|]. split; reflexivity. Qed.

(** C3 (amended): a cache file that exists is decoded and returned with
    no request; otherwise the first HTTP 200, at attempt [k], is written to
    the cache path and decoded, after [k + 1] requests; and a second call
    for the same key issues no request and returns what the first call
    returned. *)
Theorem cached_fetch_idempotent server Image_open url cache_path headers timeout delay
    (w : world) :
  (forall content fuel,
     fs w !! cache_path = Some content ->
     exists w1,
       get_tile_image server Image_open fuel url cache_path headers timeout delay w
       = Some (Image_open content, w1) /\
       requests w1 = requests w /\ fs w1 = fs w) /\
  (forall k content fuel,
     fs w !! cache_path = None ->
     first_success server (mkRequest url headers timeout) (length (requests w)) k content ->
     (k < fuel)%nat ->
     exists w1,
       get_tile_image server Image_open fuel url cache_path headers timeout delay w
       = Some (Image_open content, w1) /\
       fs w1 = <[cache_path := content]> (fs w) /\
       length (requests w1) = (length (requests w) + S k)%nat) /\
  (forall fuel r1 w1,
     get_tile_image server Image_open fuel url cache_path headers timeout delay w
     = Some (r1, w1) ->
     forall fuel2, exists w2,
       get_tile_image server Image_open fuel2 url cache_path headers timeout delay w1
       = Some (r1, w2) /\
       requests w2 = requests w1).
Proof.
  split; [|split].
  - intros content fuel Hhit. eexists. split; [apply get_tile_image_hit; exact Hhit|].
    split; reflexivity.
  - intros k content fuel Hmiss Hfs Hlt. rewrite get_tile_image_miss by exact Hmiss.
    destruct (cached_loop_returns server Image_open k fuel url cache_path headers timeout
                delay w content Hfs Hlt) as (w1 & Hrun & Hfs1 & Hreq & _).
    exists w1. auto.
  - intros fuel r1 w1 Hrun fuel2.
    assert (Hcached : exists content, fs w1 !! cache_path = Some content /\ r1 = Image_open content).
    { destruct (fs w !! cache_path) as [content|] eqn:Hc.
      - rewrite (get_tile_image_hit _ _ _ _ _ _ _ _ _ _ Hc) in Hrun.
        injection Hrun as <- <-. exists content. split; [exact Hc | reflexivity].
      - rewrite get_tile_image_miss in Hrun by exact Hc.
        apply cached_loop_inv in Hrun as (k & content & _ & _ & -> & Hfs1 & _).
        exists content. split; [|reflexivity].
        rewrite Hfs1. apply lookup_insert_eq. }
    destruct Hcached as (content & Hc1 & ->).
    eexists. split; [apply get_tile_image_hit; exact Hc1 | reflexivity].
Qed.

Lemma cached_fetch_idempotent_witness :
  exists w1 w2,
    get_tile_image Scenario.flaky Scenario.open_white 2 "u" "p" None 10 5 Scenario.fresh
    = Some (Scenario.open_white Scenario.png, w1) /\
    length (requests w1) = 2%nat /\
    get_tile_image Scenario.flaky Scenario.open_white 0 "u" "p" None 10 5 w1
    = Some (Scenario.open_white Scenario.png, w2) /\
    requests w2 = requests w1.
Proof.
  destruct (cached_fetch_idempotent Scenario.flaky Scenario.open_white "u" "p" None 10 5
              Scenario.fresh) as (_ & Hmiss & Htwice).
  destruct (Hmiss 1%nat Scenario.png 2%nat) as (w1 & Hrun & _ & Hreq).
  - reflexivity.
  - split; [reflexivity|]. intros i Hi. assert (i = 0%nat) as -> by lia. reflexivity.
  - lia.
  - destruct (Htwice _ _ _ Hrun 0%nat) as (w2 & Hrun2 & Hreq2).
    exists w1, w2. repeat split; assumption.
Defined.

(** C4: both loops return only on a 200, with the decoded body; after a
    429, another status or a transport exception they sleep [delay] and
    try again; a first 200 at attempt [k] ends them after [k] sleeps; and
    with no 200 they neither return nor raise, however long they run. *)
Theorem retry_until_200 server Image_open url cache_path headers timeout delay (w : world) :
  let rq := mkRequest url headers timeout in
  (forall fuel r w',
     get_tile_image_loop server Image_open fuel url cache_path headers timeout delay w
     = Some (r, w') ->
     exists k content,
       first_success server rq (length (requests w)) k content /\
       r = Image_open content /\ loop_effect k delay w w') /\
  (forall fuel r w',
     get_tile_image_no_cache server Image_open fuel url headers timeout delay w
     = Some (r, w') ->
     exists k content,
       first_success server rq (length (requests w)) k content /\
       r = Image_open content /\ loop_effect k delay w w') /\
  (succeeded (server (length (requests w)) rq) = None ->
   forall fuel,
     (exists line,
        get_tile_image_loop server Image_open (S fuel) url cache_path headers timeout delay w =
        get_tile_image_loop server Image_open fuel url cache_path headers timeout delay
          (sleep delay (print line (issue rq w)))) /\
     (exists line,
        get_tile_image_no_cache server Image_open (S fuel) url headers timeout delay w =
        get_tile_image_no_cache server Image_open fuel url headers timeout delay
          (sleep delay (print line (issue rq w))))) /\
  (forall k content fuel,
     first_success server rq (length (requests w)) k content -> (k < fuel)%nat ->
     (exists w',
        get_tile_image_loop server Image_open fuel url cache_path headers timeout delay w
        = Some (Image_open content, w') /\ loop_effect k delay w w') /\
     (exists w',
        get_tile_image_no_cache server Image_open fuel url headers timeout delay w
        = Some (Image_open content, w') /\ loop_effect k delay w w')) /\
  (always_fails server rq (length (requests w)) ->
   forall fuel,
     get_tile_image_loop server Image_open fuel url cache_path headers timeout delay w = None /\
     get_tile_image_no_cache server Image_open fuel url headers timeout delay w = None /\
     (fs w !! cache_path = None ->
      get_tile_image server Image_open fuel url cache_path headers timeout delay w = None)).
Proof.
  intros rq. repeat apply conj.
  - intros fuel r w' Hrun.
    apply cached_loop_inv in Hrun as (k & content & _ & Hfs & Hr & _ & Heff). eauto.
  - intros fuel r w' Hrun.
    apply uncached_loop_inv in Hrun as (k & content & _ & Hfs & Hr & _ & Heff). eauto.
  - intros Hfail fuel. split.
    + apply cached_loop_retries. exact Hfail.
    + apply uncached_loop_retries. exact Hfail.
  - intros k content fuel Hfs Hlt. split.
    + destruct (cached_loop_returns server Image_open k fuel url cache_path headers timeout
                  delay w content Hfs Hlt) as (w' & Hrun & _ & Heff). eauto.
    + destruct (uncached_loop_returns server Image_open k fuel url headers timeout
                  delay w content Hfs Hlt) as (w' & Hrun & _ & Heff). eauto.
  - intros Hall fuel. split; [|split].
    + apply cached_loop_never. exact Hall.
    + apply uncached_loop_never. exact Hall.
    + intros Hmiss. rewrite get_tile_image_miss by exact Hmiss.
      apply cached_loop_never. exact Hall.
Qed.

Lemma retry_until_200_witness :
  (forall fuel,
     get_tile_image_no_cache Scenario.rate_limiting Scenario.open_white fuel "u" None 15 5
       Scenario.fresh = None) /\
  (exists w',
     get_tile_image_no_cache Scenario.flaky Scenario.open_white 2 "u" None 15 5 Scenario.fresh
     = Some (Scenario.open_white Scenario.png, w') /\ sleeps w' = [5%Z]).
Proof.
  split.
  - intros fuel.
    destruct (retry_until_200 Scenario.rate_limiting Scenario.open_white "u" "p" None 15 5
                Scenario.fresh) as (_ & _ & _ & _ & Hnever).
    apply Hnever. intros i. reflexivity.
  - destruct (retry_until_200 Scenario.flaky Scenario.open_white "u" "p" None 15 5
                Scenario.fresh) as (_ & _ & _ & Hret & _).
    destruct (Hret 1%nat Scenario.png 2%nat) as [_ (w' & Hrun & _ & Hsl)].
    + split; [reflexivity|]. intros i Hi. assert (i = 0%nat) as -> by lia. reflexivity.
    + lia.
    + exists w'. split; [exact Hrun | exact Hsl].
Defined.

End FetcherTheorems.

(** ** Compositing *)

Section PillowFacts.

Import Pillow.
Local Open Scope Z_scope.

Lemma u8_range b : 0 <= u8 b <= 255.
Proof. unfold u8. pose proof (Byte.to_N_bounded b). lia. Qed.

Lemma UINT8_u8 b : UINT8 (u8 b) = b.
Proof.
  unfold UINT8. pose proof (u8_range b) as Hb.
  rewrite Z.mod_small by lia. unfold u8. rewrite N2Z.id, Byte.of_to_N. reflexivity.
Qed.

Lemma u8_UINT8 z : 0 <= z <= 255 -> u8 (UINT8 z) = z.
Proof.
  intros Hz. unfold UINT8, u8. rewrite Z.mod_small by lia.
  destruct (Byte.of_N (Z.to_N z)) as [b|] eqn:E.
  - apply Byte.to_of_N in E. rewrite E. lia.
  - apply Byte.of_N_None_iff in E. lia.
Qed.

(** [DIV255] rounds to the nearest integer on the range of a blend. *)
Lemma DIV255_round v : 0 <= v <= 65025 -> DIV255 v = (v + 127) / 255.
Proof.
  intros Hv. unfold DIV255. rewrite !Z.shiftr_div_pow2 by lia.
  change (2 ^ 8) with 256.
  pose proof (Z.div_mod (v + 127) 255 ltac:(lia)) as Hqr.
  pose proof (Z.mod_pos_bound (v + 127) 255 ltac:(lia)) as Hr.
  set (q := (v + 127) / 255) in *. set (r := (v + 127) mod 255) in *.
  destruct (Z_le_gt_dec q (r + 1)) as [Hle|Hgt].
  - assert (E : (v + 128) / 256 = q)
      by (symmetry; apply (Z.div_unique _ 256 q (r + 1 - q)); lia).
    rewrite E. symmetry. apply (Z.div_unique _ 256 q (r + 1)); lia.
  - assert (E : (v + 128) / 256 = q - 1)
      by (symmetry; apply (Z.div_unique _ 256 (q - 1) (r + 1 - q + 256)); lia).
    rewrite E. symmetry. apply (Z.div_unique _ 256 q r); lia.
Qed.

Lemma BLEND8_rounds mask in1 in2 :
  u8 (BLEND8 mask in1 in2) = (u8 in1 * (255 - u8 mask) + u8 in2 * u8 mask + 127) / 255.
Proof.
  unfold BLEND8.
  pose proof (u8_range mask). pose proof (u8_range in1). pose proof (u8_range in2).
  assert (0 <= u8 in1 * (255 - u8 mask) + u8 in2 * u8 mask <= 65025) by nia.
  rewrite DIV255_round by assumption.
  apply u8_UINT8. split.
  - apply Z.div_pos; lia.
  - enough ((u8 in1 * (255 - u8 mask) + u8 in2 * u8 mask + 127) / 255 < 256) by lia.
    apply Z.div_lt_upper_bound; lia.
Qed.

Lemma u8_inj a b : u8 a = u8 b -> a = b.
Proof. intros H. rewrite <- (UINT8_u8 a), <- (UINT8_u8 b), H. reflexivity. Qed.

Lemma BLEND8_opaque in1 in2 : BLEND8 Byte.xff in1 in2 = in2.
Proof.
  apply u8_inj. rewrite BLEND8_rounds. change (u8 Byte.xff) with 255.
  pose proof (u8_range in2). symmetry.
  apply (Z.div_unique _ 255 (u8 in2) 127); lia.
Qed.

Lemma BLEND8_transparent in1 in2 : BLEND8 Byte.x00 in1 in2 = in1.
Proof.
  apply u8_inj. rewrite BLEND8_rounds. change (u8 Byte.x00) with 0.
  pose proof (u8_range in1). symmetry.
  apply (Z.div_unique _ 255 (u8 in1) 127); lia.
Qed.

Lemma blend_pixel_opaque out src : blend_pixel Byte.xff out src = src.
Proof. unfold blend_pixel. rewrite !BLEND8_opaque. destruct src; reflexivity. Qed.

Lemma blend_pixel_transparent out src : blend_pixel Byte.x00 out src = out.
Proof. unfold blend_pixel. rewrite !BLEND8_transparent. destruct out; reflexivity. Qed.

Lemma in_rect_spec box sz x y :
  in_rect box sz x y = true <->
  box.1 <= x < box.1 + sz.1 /\ box.2 <= y < box.2 + sz.2.
Proof. unfold in_rect. rewrite !andb_true_iff. lia. Qed.

Lemma paste_inside dst src box mask x y :
  in_rect box (size src) x y = true -> in_rect (0, 0) (size dst) x y = true ->
  pixel (paste dst src box mask) x y =
  match mask with
  | None => pixel src (x - box.1) (y - box.2)
  | Some m => blend_pixel (alpha (pixel m (x - box.1) (y - box.2))) (pixel dst x y)
                (pixel src (x - box.1) (y - box.2))
  end.
Proof. intros H1 H2. simpl. rewrite H1, H2. reflexivity. Qed.

Lemma paste_outside dst src box mask x y :
  in_rect box (size src) x y = false ->
  pixel (paste dst src box mask) x y = pixel dst x y.
Proof. intros H. simpl. rewrite H. reflexivity. Qed.

End PillowFacts.

Section CompositorFacts.

Import Pillow Fetcher Compositor.
Local Open Scope Z_scope.

Variable server : nat -> request -> response.
Variable Image_open : bytes -> result Image.
Variable convert_data : string -> Image -> result (Z -> Z -> Pixel).
Variable resample : Z * Z -> Image -> Z -> Z -> Pixel.

Lemma convert_inv m im out :
  convert convert_data m im = Ok out ->
  exists data, convert_data m im = Ok data /\
    out = {| mode := m; info := info im; size := size im; pixel := data |}.
Proof.
  unfold convert. destruct (convert_data m im) as [data|exc]; [|discriminate].
  intros [= <-]. eauto.
Qed.

Lemma prepare_background_size TILE_SIZE bg0 bg :
  prepare_background convert_data resample TILE_SIZE bg0 = Ok bg ->
  size bg = (TILE_SIZE, TILE_SIZE).
Proof.
  unfold prepare_background. simpl.
  destruct (convert convert_data "RGB" bg0); [|discriminate].
  intros [= <-]. reflexivity.
Qed.

Lemma prepare_background_inv TILE_SIZE bg0 bg :
  prepare_background convert_data resample TILE_SIZE bg0 = Ok bg ->
  exists rgb,
    convert convert_data "RGB" bg0 = Ok rgb /\
    bg = resize resample (TILE_SIZE, TILE_SIZE) rgb.
Proof.
  unfold prepare_background. simpl.
  destruct (convert convert_data "RGB" bg0) as [rgb|exc]; [|discriminate].
  intros [= <-]. eauto.
Qed.

Lemma normalise_overlay_inv TILE_SIZE overlay ov :
  normalise_overlay convert_data resample TILE_SIZE overlay = Ok ov ->
  exists rgba,
    convert convert_data "RGBA" overlay = Ok rgba /\
    ov = if bool_decide (size rgba ≠ (TILE_SIZE, TILE_SIZE))
         then resize resample (TILE_SIZE, TILE_SIZE) rgba else rgba.
Proof.
  unfold normalise_overlay.
  destruct (convert convert_data "RGBA" overlay) as [rgba|exc]; [|discriminate].
  intros H. exists rgba. split; [reflexivity|].
  destruct (bool_decide (size rgba ≠ (TILE_SIZE, TILE_SIZE))); injection H as <-; reflexivity.
Qed.

(** Where the overlay already has the tile size, an RGBA or LA overlay
    keeps its alpha band through the normalisation, pixel by pixel. *)
Lemma normalise_overlay_same_size TILE_SIZE overlay ov :
  convert_keeps_alpha convert_data ->
  mode overlay ∈ ["RGBA"; "LA"]%string ->
  size overlay = (TILE_SIZE, TILE_SIZE) ->
  normalise_overlay convert_data resample TILE_SIZE overlay = Ok ov ->
  forall x y, alpha (pixel ov x y) = alpha (pixel overlay x y).
Proof.
  intros Hconv Hmode Hsz. unfold normalise_overlay.
  destruct (convert convert_data "RGBA" overlay) as [rgba|exc] eqn:Ec; [|discriminate].
  apply convert_inv in Ec as (data & Ed & ->). simpl.
  rewrite bool_decide_eq_false_2 by (intros H; apply H; exact Hsz).
  intros [= <-] x y. simpl. apply (Hconv overlay data Hmode Ed).
Qed.

Lemma normalise_overlay_size TILE_SIZE overlay ov :
  normalise_overlay convert_data resample TILE_SIZE overlay = Ok ov ->
  size ov = (TILE_SIZE, TILE_SIZE) /\ mode ov = "RGBA"%string.
Proof.
  unfold normalise_overlay.
  destruct (convert convert_data "RGBA" overlay) as [rgba|exc] eqn:Ec; [|discriminate].
  apply convert_inv in Ec as (data & _ & ->). simpl.
  case_bool_decide as Hsz; intros [= <-]; simpl.
  - split; reflexivity.
  - split; [|reflexivity]. destruct (decide (size overlay = (TILE_SIZE, TILE_SIZE))); tauto.
Qed.

(** An alpha band that is 0 everywhere, or 255 everywhere, survives the
    normalisation of an RGBA or LA overlay. *)
Lemma normalise_overlay_alpha TILE_SIZE overlay ov a :
  convert_keeps_alpha convert_data -> resample_keeps_alpha resample ->
  mode overlay ∈ ["RGBA"; "LA"]%string ->
  a = Byte.x00 \/ a = Byte.xff ->
  0 < (size overlay).1 -> 0 < (size overlay).2 ->
  uniform_alpha a overlay ->
  normalise_overlay convert_data resample TILE_SIZE overlay = Ok ov ->
  uniform_alpha a ov.
Proof.
  intros Hconv Hres Hmode Ha Hw Hh Hu. unfold normalise_overlay.
  destruct (convert convert_data "RGBA" overlay) as [rgba|exc] eqn:Ec; [|discriminate].
  apply convert_inv in Ec as (data & Ed & ->).
  assert (Hu' : uniform_alpha a
            {| mode := "RGBA"; info := info overlay; size := size overlay; pixel := data |}).
  { intros x y Hin. simpl in *. rewrite (Hconv overlay data Hmode Ed). apply Hu. exact Hin. }
  simpl. case_bool_decide; intros [= <-]; [|exact Hu'].
  apply Hres; assumption.
Qed.

Lemma composite_overlay_inv TILE_SIZE bg overlay img flag :
  composite_overlay convert_data resample TILE_SIZE bg overlay = Ok (img, flag) ->
  exists ov,
    normalise_overlay convert_data resample TILE_SIZE overlay = Ok ov /\
    img = paste bg ov (0, 0) (Some ov) /\
    flag = has_alpha_or_transparency overlay.
Proof.
  unfold composite_overlay. simpl.
  destruct (normalise_overlay convert_data resample TILE_SIZE overlay) as [ov|exc];
    [|discriminate].
  intros [= <- <-]. eauto.
Qed.

(** A unit of work that returns has fetched both images, prepared the
    background, composited the overlay, and reports its own tile. *)
Lemma process_and_composite_tile_inv fuel t w x y img flag w' :
  process_and_composite_tile server Image_open convert_data resample fuel t w
  = Some (Ok (x, y, img, flag), w') ->
  exists bg0 w1 bg overlay,
    get_tile_image server Image_open fuel (ti_OSM_URL t (ti_zoom t) (ti_x t) (ti_y t))
      (osm_cache_path (ti_CACHE_DIR t) (ti_zoom t) (ti_x t) (ti_y t))
      (Some [("User-Agent", "meow meow/1.0")]%string) 10 5 w = Some (Ok bg0, w1) /\
    prepare_background convert_data resample (ti_TILE_SIZE t) bg0 = Ok bg /\
    get_tile_image_no_cache server Image_open fuel (ti_WPLACE_URL t (ti_x t) (ti_y t))
      None 15 5 w1 = Some (Ok overlay, w') /\
    composite_overlay convert_data resample (ti_TILE_SIZE t) bg overlay = Ok (img, flag) /\
    x = ti_x t /\ y = ti_y t.
Proof.
  unfold process_and_composite_tile.
  destruct (get_tile_image _ _ _ _ _ _ _ _ w) as [[[bg0|exc] w1]|] eqn:Ef1; try discriminate.
  destruct (prepare_background _ _ _ bg0) as [bg|exc] eqn:Ebg; try discriminate.
  destruct (get_tile_image_no_cache _ _ _ _ _ _ _ w1) as [[[overlay|exc] w2]|] eqn:Ef2;
    try discriminate.
  destruct (composite_overlay _ _ _ bg overlay) as [[img' flag']|exc] eqn:Eov;
    try discriminate.
  intros [= <- <- <- <- <-]. exists bg0, w1, bg, overlay. repeat split; assumption.
Qed.

Lemma process_result_size fuel t w x y img flag w' :
  process_and_composite_tile server Image_open convert_data resample fuel t w
  = Some (Ok (x, y, img, flag), w') ->
  x = ti_x t /\ y = ti_y t /\ size img = (ti_TILE_SIZE t, ti_TILE_SIZE t).
Proof.
  intros (bg0 & w1 & bg & overlay & _ & Hbg & _ & Hov & -> & ->)%process_and_composite_tile_inv.
  apply composite_overlay_inv in Hov as (ov & _ & -> & _).
  apply prepare_background_size in Hbg. auto.
Qed.

End CompositorFacts.

Section CompositorTheorems.

Import Pillow Fetcher Compositor.
Local Open Scope Z_scope.

Variable server : nat -> request -> response.
Variable Image_open : bytes -> result Image.
Variable convert_data : string -> Image -> result (Z -> Z -> Pixel).
Variable resample : Z * Z -> Image -> Z -> Z -> Pixel.

Lemma pasted_overlay_pixel TILE_SIZE bg ov x y :
  size bg = (TILE_SIZE, TILE_SIZE) -> size ov = (TILE_SIZE, TILE_SIZE) ->
  in_rect (0, 0) (TILE_SIZE, TILE_SIZE) x y = true ->
  pixel (paste bg ov (0, 0) (Some ov)) x y =
  blend_pixel (alpha (pixel ov x y)) (pixel bg x y) (pixel ov x y).
Proof.
  intros Hbg Hov Hin.
  rewrite paste_inside by (rewrite ?Hbg, ?Hov; exact Hin).
  simpl. rewrite !Z.sub_0_r. reflexivity.
Qed.

(** C8: the tile a unit of work returns is made of the two images it
    fetched: [bg] is the fetched background converted to RGB and resized to
    the tile size, [ov] is the fetched overlay converted to RGBA and
    resized when its size differs, and the tile is [bg] with [ov] pasted at
    (0, 0) through [ov]'s own alpha band: per pixel and per channel,
    [bg*(255-alpha) + overlay*alpha] over 255, rounded to the nearest
    integer.  Where [ov] is fully opaque the tile equals [ov], where it is
    fully transparent the tile equals [bg].  Under the facts assumed of the
    library, for an overlay fetched in mode RGBA or LA: at the tile size,
    the alpha used at each pixel is the fetched overlay's; and a fetched
    overlay that is opaque everywhere gives a tile equal to [ov], one that
    is transparent everywhere a tile equal to [bg]. *)
Theorem composite_alpha_blend fuel (t : tile_info) (w : world) x y img flag w' :
  process_and_composite_tile server Image_open convert_data resample fuel t w
  = Some (Ok (x, y, img, flag), w') ->
  exists bg0 w1 overlay rgb rgba bg ov,
    get_tile_image server Image_open fuel (ti_OSM_URL t (ti_zoom t) (ti_x t) (ti_y t))
      (osm_cache_path (ti_CACHE_DIR t) (ti_zoom t) (ti_x t) (ti_y t))
      (Some [("User-Agent", "meow meow/1.0")]%string) 10 5 w = Some (Ok bg0, w1) /\
    get_tile_image_no_cache server Image_open fuel (ti_WPLACE_URL t (ti_x t) (ti_y t))
      None 15 5 w1 = Some (Ok overlay, w') /\
    convert convert_data "RGB" bg0 = Ok rgb /\
    bg = resize resample (ti_TILE_SIZE t, ti_TILE_SIZE t) rgb /\
    convert convert_data "RGBA" overlay = Ok rgba /\
    ov = (if bool_decide (size rgba ≠ (ti_TILE_SIZE t, ti_TILE_SIZE t))
          then resize resample (ti_TILE_SIZE t, ti_TILE_SIZE t) rgba else rgba) /\
    img = paste bg ov (0, 0) (Some ov) /\
    size img = (ti_TILE_SIZE t, ti_TILE_SIZE t) /\
    size ov = (ti_TILE_SIZE t, ti_TILE_SIZE t) /\
    (forall px py,
       in_rect (0, 0) (ti_TILE_SIZE t, ti_TILE_SIZE t) px py = true ->
       let a := u8 (alpha (pixel ov px py)) in
       pixel img px py
         = blend_pixel (alpha (pixel ov px py)) (pixel bg px py) (pixel ov px py) /\
       u8 (red (pixel img px py)) =
         (u8 (red (pixel bg px py)) * (255 - a) + u8 (red (pixel ov px py)) * a + 127) / 255 /\
       u8 (green (pixel img px py)) =
         (u8 (green (pixel bg px py)) * (255 - a) + u8 (green (pixel ov px py)) * a + 127) / 255 /\
       u8 (blue (pixel img px py)) =
         (u8 (blue (pixel bg px py)) * (255 - a) + u8 (blue (pixel ov px py)) * a + 127) / 255) /\
    (uniform_alpha Byte.xff ov ->
     forall px py, in_rect (0, 0) (ti_TILE_SIZE t, ti_TILE_SIZE t) px py = true ->
       pixel img px py = pixel ov px py) /\
    (uniform_alpha Byte.x00 ov ->
     forall px py, in_rect (0, 0) (ti_TILE_SIZE t, ti_TILE_SIZE t) px py = true ->
       pixel img px py = pixel bg px py) /\
    (convert_keeps_alpha convert_data ->
     mode overlay ∈ ["RGBA"; "LA"]%string ->
     (size overlay = (ti_TILE_SIZE t, ti_TILE_SIZE t) ->
      forall px py, alpha (pixel ov px py) = alpha (pixel overlay px py)) /\
     (resample_keeps_alpha resample ->
      0 < (size overlay).1 -> 0 < (size overlay).2 ->
      (uniform_alpha Byte.xff overlay ->
       forall px py, in_rect (0, 0) (ti_TILE_SIZE t, ti_TILE_SIZE t) px py = true ->
         pixel img px py = pixel ov px py) /\
      (uniform_alpha Byte.x00 overlay ->
       forall px py, in_rect (0, 0) (ti_TILE_SIZE t, ti_TILE_SIZE t) px py = true ->
         pixel img px py = pixel bg px py))).
Proof.
  intros (bg0 & w1 & bg & overlay & Hf1 & Hbg & Hf2 & Hov & _ & _)%process_and_composite_tile_inv.
  apply composite_overlay_inv in Hov as (ov & Hnorm & -> & _).
  pose proof (prepare_background_size _ _ _ _ _ Hbg) as Hsbg.
  pose proof (normalise_overlay_size _ _ _ _ _ Hnorm) as [Hsov _].
  destruct (prepare_background_inv _ _ _ _ _ Hbg) as (rgb & Hrgb & Ebg).
  destruct (normalise_overlay_inv _ _ _ _ _ Hnorm) as (rgba & Hrgba & Eov).
  assert (Hopaque : uniform_alpha Byte.xff ov ->
            forall px py, in_rect (0, 0) (ti_TILE_SIZE t, ti_TILE_SIZE t) px py = true ->
              pixel (paste bg ov (0, 0) (Some ov)) px py = pixel ov px py).
  { intros Hop px py Hin.
    rewrite (pasted_overlay_pixel _ _ _ _ _ Hsbg Hsov Hin).
    rewrite Hop by (rewrite Hsov; exact Hin). apply blend_pixel_opaque. }
  assert (Htransparent : uniform_alpha Byte.x00 ov ->
            forall px py, in_rect (0, 0) (ti_TILE_SIZE t, ti_TILE_SIZE t) px py = true ->
              pixel (paste bg ov (0, 0) (Some ov)) px py = pixel bg px py).
  { intros Htr px py Hin.
    rewrite (pasted_overlay_pixel _ _ _ _ _ Hsbg Hsov Hin).
    rewrite Htr by (rewrite Hsov; exact Hin). apply blend_pixel_transparent. }
  exists bg0, w1, overlay, rgb, rgba, bg, ov.
  split; [exact Hf1|]. split; [exact Hf2|]. split; [exact Hrgb|]. split; [exact Ebg|].
  split; [exact Hrgba|]. split; [exact Eov|]. split; [reflexivity|].
  split; [exact Hsbg|]. split; [exact Hsov|].
  split; [|split; [exact Hopaque|split; [exact Htransparent|]]].
  - intros px py Hin a.
    rewrite (pasted_overlay_pixel _ _ _ _ _ Hsbg Hsov Hin). simpl.
    rewrite !BLEND8_rounds. auto.
  - intros Hconv Hmode. split.
    + intros Hsz. exact (normalise_overlay_same_size _ _ _ _ _ Hconv Hmode Hsz Hnorm).
    + intros Hres Hw Hh. split; intros Hu.
      * apply Hopaque.
        exact (normalise_overlay_alpha _ _ _ _ _ Byte.xff Hconv Hres Hmode
                 ltac:(right; reflexivity) Hw Hh Hu Hnorm).
      * apply Htransparent.
        exact (normalise_overlay_alpha _ _ _ _ _ Byte.x00 Hconv Hres Hmode
                 ltac:(left; reflexivity) Hw Hh Hu Hnorm).
Qed.

(** C9: the flag a unit of work returns is true exactly when the fetched
    overlay is in mode RGBA or LA, or in mode P with a [transparency] entry
    in its info; whatever the flag, that same overlay has been converted to
    RGBA, resized when its size differs, and pasted through its alpha band
    over the converted and resized background. *)
Theorem overlay_flag_iff_alpha_or_transparency fuel (t : tile_info) (w : world)
    x y img flag w' :
  process_and_composite_tile server Image_open convert_data resample fuel t w
  = Some (Ok (x, y, img, flag), w') ->
  exists bg0 w1 overlay rgb rgba bg ov,
    get_tile_image server Image_open fuel (ti_OSM_URL t (ti_zoom t) (ti_x t) (ti_y t))
      (osm_cache_path (ti_CACHE_DIR t) (ti_zoom t) (ti_x t) (ti_y t))
      (Some [("User-Agent", "meow meow/1.0")]%string) 10 5 w = Some (Ok bg0, w1) /\
    get_tile_image_no_cache server Image_open fuel (ti_WPLACE_URL t (ti_x t) (ti_y t))
      None 15 5 w1 = Some (Ok overlay, w') /\
    (flag = true <->
     mode overlay = "RGBA"%string \/ mode overlay = "LA"%string \/
     (mode overlay = "P"%string /\ "transparency"%string ∈ info overlay)) /\
    convert convert_data "RGB" bg0 = Ok rgb /\
    bg = resize resample (ti_TILE_SIZE t, ti_TILE_SIZE t) rgb /\
    convert convert_data "RGBA" overlay = Ok rgba /\
    mode rgba = "RGBA"%string /\ size rgba = size overlay /\
    ov = (if bool_decide (size overlay ≠ (ti_TILE_SIZE t, ti_TILE_SIZE t))
          then resize resample (ti_TILE_SIZE t, ti_TILE_SIZE t) rgba else rgba) /\
    mode ov = "RGBA"%string /\
    img = paste bg ov (0, 0) (Some ov).
Proof.
  intros (bg0 & w1 & bg & overlay & Hf1 & Hbg & Hf2 & Hov & _ & _)%process_and_composite_tile_inv.
  apply composite_overlay_inv in Hov as (ov & Hnorm & -> & ->).
  pose proof (normalise_overlay_size _ _ _ _ _ Hnorm) as [_ Hmode].
  destruct (prepare_background_inv _ _ _ _ _ Hbg) as (rgb & Hrgb & Ebg).
  destruct (normalise_overlay_inv _ _ _ _ _ Hnorm) as (rgba & Hrgba & Eov).
  assert (Hm : mode rgba = "RGBA"%string /\ size rgba = size overlay).
  { apply convert_inv in Hrgba as (data & _ & ->). split; reflexivity. }
  destruct Hm as [Hm Hs]. rewrite Hs in Eov.
  exists bg0, w1, overlay, rgb, rgba, bg, ov.
  split; [exact Hf1|]. split; [exact Hf2|]. split; [|auto 10].
  unfold has_alpha_or_transparency.
  rewrite orb_true_iff, andb_true_iff, bool_decide_eq_true, bool_decide_eq_true, String.eqb_eq.
  rewrite !elem_of_cons, elem_of_nil. tauto.
Qed.

End CompositorTheorems.

Section CompositorWitnesses.

Import Pillow Fetcher Compositor Scenario.
Local Open Scope Z_scope.

Lemma keep_data_keeps_alpha : convert_keeps_alpha keep_data.
Proof.
  intros im data Hmode [= <-] x y.
  rewrite bool_decide_eq_true_2 by exact Hmode. reflexivity.
Qed.

Lemma tiling_keeps_alpha : resample_keeps_alpha tiling.
Proof.
  intros a sz im _ Hw Hh Hu x y _. unfold resize, tiling. simpl.
  apply Hu. apply in_rect_spec. simpl.
  pose proof (Z.mod_pos_bound x (size im).1 Hw).
  pose proof (Z.mod_pos_bound y (size im).2 Hh). lia.
Qed.

Lemma composite_alpha_blend_witness :
  (exists img flag w',
     process_and_composite_tile (serving [Byte.xff]) open_alpha keep_data tiling 1
       (Pipeline.task_of 0 (0, 0)) fresh = Some (Ok (0, 0, img, flag), w') /\
     pixel img 3 4 = red_pixel Byte.xff) /\
  (exists img flag w',
     process_and_composite_tile (serving [Byte.x80]) open_alpha keep_data tiling 1
       (Pipeline.task_of 0 (0, 0)) fresh = Some (Ok (0, 0, img, flag), w') /\
     u8 (red (pixel img 3 4)) = 128 /\ u8 (blue (pixel img 3 4)) = 127).
Proof.
  split.
  - eexists _, _, _. split; [reflexivity|].
    edestruct (composite_alpha_blend (serving [Byte.xff]) open_alpha keep_data tiling 1
                 (Pipeline.task_of 0 (0, 0)) fresh)
      as (bg0 & w1 & overlay & rgb & rgba & bg & ov & Hf1 & Hf2 & Hrgb & Ebg & Hrgba & Eov
          & Eimg & _ & _ & _ & _ & _ & Hlib); [reflexivity|].
    injection Hf1 as <- <-. injection Hf2 as <-. injection Hrgba as <-.
    destruct (Hlib keep_data_keeps_alpha ltac:(left)) as [_ Hu].
    destruct (Hu tiling_keeps_alpha ltac:(reflexivity) ltac:(reflexivity)) as [Hop _].
    transitivity (pixel ov 3 4).
    + apply Hop; [intros px py _; reflexivity | reflexivity].
    + rewrite Eov. reflexivity.
  - eexists _, _, _. split; [reflexivity|].
    edestruct (composite_alpha_blend (serving [Byte.x80]) open_alpha keep_data tiling 1
                 (Pipeline.task_of 0 (0, 0)) fresh)
      as (bg0 & w1 & overlay & rgb & rgba & bg & ov & Hf1 & Hf2 & Hrgb & Ebg & Hrgba & Eov
          & Eimg & _ & _ & Hblend & _); [reflexivity|].
    injection Hf1 as <- <-. injection Hf2 as <-. injection Hrgba as <-.
    injection Hrgb as <-.
    pose proof (Hblend 3 4 eq_refl) as Hpx. cbv zeta in Hpx.
    destruct Hpx as (_ & Hr & _ & Hb).
    split; (etransitivity; [eassumption|]); rewrite Eov, Ebg; reflexivity.
Defined.

Lemma overlay_flag_iff_alpha_or_transparency_witness :
  exists img w',
    process_and_composite_tile (serving [Byte.x01]) open_first_byte keep_data tiling 1
      (Pipeline.task_of 0 (0, 0)) fresh = Some (Ok (0, 0, img, false), w') /\
    pixel img 3 4 = mkPixel Byte.xff Byte.x00 Byte.x00 Byte.xff.
Proof.
  eexists _, _. split; [reflexivity|].
  edestruct (overlay_flag_iff_alpha_or_transparency (serving [Byte.x01]) open_first_byte
               keep_data tiling 1 (Pipeline.task_of 0 (0, 0)) fresh)
    as (bg0 & w1 & overlay & rgb & rgba & bg & ov & Hf1 & Hf2 & _ & Hrgb & Ebg & Hrgba
        & _ & _ & Eov & _ & Eimg); [reflexivity|].
  injection Hf1 as <- <-. injection Hf2 as <-. injection Hrgba as <-. injection Hrgb as <-.
  transitivity (pixel (paste bg ov (0, 0) (Some ov)) 3 4).
  - rewrite <- Eimg. reflexivity.
  - rewrite Eov, Ebg. reflexivity.
Defined.

End CompositorWitnesses.
(** ** Pipeline *)

Section PipelineFacts.

Import Pillow Fetcher Compositor Pipeline.
Local Open Scope Z_scope.

Lemma fold_min_spec vs : forall v,
  (fold_left Z.min vs v = v \/ fold_left Z.min vs v ∈ vs) /\
  fold_left Z.min vs v <= v /\ (forall u, u ∈ vs -> fold_left Z.min vs v <= u).
Proof.
  induction vs as [|a vs IH]; intros v; simpl.
  - split; [left; reflexivity|]. split; [lia|]. intros u Hu. inversion Hu.
  - destruct (IH (Z.min v a)) as (Hin & Hle & Hall). split; [|split].
    + destruct Hin as [E|Hin]; [|right; right; exact Hin].
      rewrite E. destruct (Z.min_spec v a) as [[_ ->]|[_ ->]]; [left; reflexivity|right; left].
    + lia.
    + intros u [->|Hu]%elem_of_cons; [lia | apply Hall; exact Hu].
Qed.

Lemma fold_max_spec vs : forall v,
  (fold_left Z.max vs v = v \/ fold_left Z.max vs v ∈ vs) /\
  v <= fold_left Z.max vs v /\ (forall u, u ∈ vs -> u <= fold_left Z.max vs v).
Proof.
  induction vs as [|a vs IH]; intros v; simpl.
  - split; [left; reflexivity|]. split; [lia|]. intros u Hu. inversion Hu.
  - destruct (IH (Z.max v a)) as (Hin & Hle & Hall). split; [|split].
    + destruct Hin as [E|Hin]; [|right; right; exact Hin].
      rewrite E. destruct (Z.max_spec v a) as [[_ ->]|[_ ->]]; [right; left|left; reflexivity].
    + lia.
    + intros u [->|Hu]%elem_of_cons; [lia | apply Hall; exact Hu].
Qed.

Lemma py_min_spec vals :
  vals <> [] -> py_min vals ∈ vals /\ forall u, u ∈ vals -> py_min vals <= u.
Proof.
  destruct vals as [|v vs]; [congruence|]. intros _. unfold py_min.
  destruct (fold_min_spec vs v) as (Hin & Hle & Hall). split.
  - destruct Hin as [->|Hin]; [left | right; exact Hin].
  - intros u [->|Hu]%elem_of_cons; [exact Hle | apply Hall; exact Hu].
Qed.

Lemma py_max_spec vals :
  vals <> [] -> py_max vals ∈ vals /\ forall u, u ∈ vals -> u <= py_max vals.
Proof.
  destruct vals as [|v vs]; [congruence|]. intros _. unfold py_max.
  destruct (fold_max_spec vs v) as (Hin & Hle & Hall). split.
  - destruct Hin as [->|Hin]; [left | right; exact Hin].
  - intros u [->|Hu]%elem_of_cons; [exact Hle | apply Hall; exact Hu].
Qed.

(** The extremes the script recomputes from the tile list are the bounds
    of the range. *)
Lemma tile_grid_extremes sx ex sy ey :
  sx <= ex -> sy <= ey ->
  py_min ((Projection.tile_grid sx ex sy ey).*1) = sx /\
  py_max ((Projection.tile_grid sx ex sy ey).*1) = ex /\
  py_min ((Projection.tile_grid sx ex sy ey).*2) = sy /\
  py_max ((Projection.tile_grid sx ex sy ey).*2) = ey.
Proof.
  intros Hx Hy. set (tiles := Projection.tile_grid sx ex sy ey).
  assert (Hin : forall x y, (x, y) ∈ tiles <-> sx <= x <= ex /\ sy <= y <= ey)
    by (intros; apply elem_of_tile_grid).
  assert (H1 : forall x, x ∈ tiles.*1 <-> sx <= x <= ex).
  { intros x. rewrite list_elem_of_fmap. split.
    - intros ([x' y'] & -> & H%Hin). simpl. lia.
    - intros H. exists (x, sy). split; [reflexivity | apply Hin; lia]. }
  assert (H2 : forall y, y ∈ tiles.*2 <-> sy <= y <= ey).
  { intros y. rewrite list_elem_of_fmap. split.
    - intros ([x' y'] & -> & H%Hin). simpl. lia.
    - intros H. exists (sx, y). split; [reflexivity | apply Hin; lia]. }
  assert (N1 : tiles.*1 <> []).
  { intros E. assert (H : sx ∈ tiles.*1) by (apply H1; lia). rewrite E in H. inversion H. }
  assert (N2 : tiles.*2 <> []).
  { intros E. assert (H : sy ∈ tiles.*2) by (apply H2; lia). rewrite E in H. inversion H. }
  destruct (py_min_spec _ N1) as [Ha Hb]. destruct (py_max_spec _ N1) as [Hc Hd].
  destruct (py_min_spec _ N2) as [He Hf]. destruct (py_max_spec _ N2) as [Hg Hh].
  apply H1 in Ha, Hc. apply H2 in He, Hg.
  pose proof (Hb sx ltac:(apply H1; lia)). pose proof (Hd ex ltac:(apply H1; lia)).
  pose proof (Hf sy ltac:(apply H2; lia)). pose proof (Hh ey ltac:(apply H2; lia)).
  lia.
Qed.

Lemma NoDup_tile_grid sx ex sy ey : NoDup (Projection.tile_grid sx ex sy ey).
Proof.
  unfold Projection.tile_grid, Projection.range. apply NoDup_bind.
  - intros x1 x2 [x y] _ _ H1 H2.
    apply list_elem_of_bind in H1 as (y1 & H1 & _). apply list_elem_of_bind in H2 as (y2 & H2 & _).
    apply list_elem_of_singleton in H1, H2. congruence.
  - intros x _. apply NoDup_bind.
    + intros y1 y2 p _ _ H1 H2. apply list_elem_of_singleton in H1, H2. congruence.
    + intros y _. apply NoDup_singleton.
    + apply NoDup_seqZ.
  - apply NoDup_seqZ.
Qed.

(** Two tiles whose rectangles share a pixel are the same tile. *)
Lemma tile_rects_disjoint min_x min_y x y x' y' px py :
  in_rect (tile_box min_x min_y x y) (TILE_SIZE, TILE_SIZE) px py = true ->
  in_rect (tile_box min_x min_y x' y') (TILE_SIZE, TILE_SIZE) px py = true ->
  (x, y) = (x', y').
Proof.
  rewrite !in_rect_spec. unfold tile_box, TILE_SIZE. simpl. intros H1 H2.
  f_equal; lia.
Qed.

(** The rectangle of a tile of the list lies inside the canvas. *)
Lemma tile_rect_in_canvas tiles x y px py :
  (x, y) ∈ tiles ->
  in_rect (tile_box (py_min (tiles.*1)) (py_min (tiles.*2)) x y) (TILE_SIZE, TILE_SIZE) px py
  = true ->
  in_rect (0, 0) (size (final_image (initial_state tiles))) px py = true.
Proof.
  intros Hin. rewrite !in_rect_spec. unfold tile_box. simpl.
  assert (Hx : x ∈ tiles.*1) by (apply list_elem_of_fmap; exists (x, y); auto).
  assert (Hy : y ∈ tiles.*2) by (apply list_elem_of_fmap; exists (x, y); auto).
  assert (N1 : tiles.*1 <> []) by (intros E; rewrite E in Hx; inversion Hx).
  assert (N2 : tiles.*2 <> []) by (intros E; rewrite E in Hy; inversion Hy).
  destruct (py_min_spec _ N1) as [_ Hb]. destruct (py_max_spec _ N1) as [_ Hd].
  destruct (py_min_spec _ N2) as [_ Hf]. destruct (py_max_spec _ N2) as [_ Hh].
  specialize (Hb x Hx). specialize (Hd x Hx). specialize (Hf y Hy). specialize (Hh y Hy).
  unfold TILE_SIZE. lia.
Qed.

Section Loop.

Variables min_x min_y total : Z.

Local Abbreviation loop := (fold_left (collect_step min_x min_y total)).

Lemma loop_size completed : forall st,
  size (final_image (loop completed st)) = size (final_image st).
Proof.
  induction completed as [|[t r] l IH]; intros st; simpl; [reflexivity|].
  rewrite IH. unfold collect_step. simpl.
  destruct r as [[[[x y] img] flag]|exc]; reflexivity.
Qed.

Lemma loop_custom_found completed : forall st,
  custom_found (loop completed st) = custom_found st + count_flagged completed.
Proof.
  unfold count_flagged.
  induction completed as [|[t r] l IH]; intros st; simpl; [lia|].
  rewrite IH. unfold collect_step, flagged at 2. simpl.
  destruct r as [[[[x y] img] [|]]|exc]; simpl; lia.
Qed.

Lemma loop_processed_count completed : forall st,
  processed_count (loop completed st) = processed_count st + Z.of_nat (length completed).
Proof.
  induction completed as [|[t r] l IH]; intros st; simpl; [lia|].
  rewrite IH. unfold collect_step. simpl.
  destruct r as [[[[x y] img] flag]|exc]; simpl; lia.
Qed.

Lemma loop_printed_mono completed : forall st ln,
  ln ∈ printed st -> ln ∈ printed (loop completed st).
Proof.
  induction completed as [|[t r] l IH]; intros st ln Hin; simpl; [exact Hin|].
  apply IH. unfold collect_step. simpl.
  destruct r as [[[[x y] img] flag]|exc]; simpl; right; exact Hin.
Qed.

(** Every future that raised is reported, with the coordinates of its
    task. *)
Lemma loop_logs_error completed : forall st t exc,
  (t, Raise exc) ∈ completed ->
  LogError (ti_x t, ti_y t) exc ∈ printed (loop completed st).
Proof.
  induction completed as [|fut l IH]; intros st t exc Hin; [inversion Hin|].
  apply elem_of_cons in Hin as [<-|Hin]; simpl.
  - apply loop_printed_mono. left.
  - apply IH. exact Hin.
Qed.

(** A pixel outside every pasted rectangle keeps its value. *)
Lemma loop_pixel_untouched px py completed : forall st,
  (forall t x y img flag,
     (t, Ok (x, y, img, flag)) ∈ completed ->
     in_rect (tile_box min_x min_y x y) (size img) px py = false) ->
  pixel (final_image (loop completed st)) px py = pixel (final_image st) px py.
Proof.
  induction completed as [|[t r] l IH]; intros st Hout; simpl; [reflexivity|].
  rewrite IH by (intros; eapply Hout; right; eassumption).
  unfold collect_step. simpl.
  destruct r as [[[[x y] img] flag]|exc]; [|reflexivity].
  apply paste_outside. eapply Hout. left.
Qed.

Lemma collect_step_ok_image st t x y img flag :
  final_image (collect_step min_x min_y total st (t, Ok (x, y, img, flag)))
  = paste (final_image st) img (tile_box min_x min_y x y) None.
Proof. reflexivity. Qed.

(** A pixel of a pasted rectangle that no later paste covers holds the
    pixel of the tile pasted there. *)
Lemma loop_pixel_written px py before t x y img flag after st :
  in_rect (tile_box min_x min_y x y) (size img) px py = true ->
  in_rect (0, 0) (size (final_image st)) px py = true ->
  (forall t' x' y' img' flag',
     (t', Ok (x', y', img', flag')) ∈ after ->
     in_rect (tile_box min_x min_y x' y') (size img') px py = false) ->
  pixel (final_image (loop (before ++ (t, Ok (x, y, img, flag)) :: after) st)) px py
  = pixel img (px - (tile_box min_x min_y x y).1) (py - (tile_box min_x min_y x y).2).
Proof.
  intros Hin Hcanvas Hafter. rewrite fold_left_app. cbn [fold_left].
  rewrite loop_pixel_untouched by exact Hafter.
  rewrite collect_step_ok_image.
  rewrite paste_inside; [reflexivity | exact Hin | rewrite loop_size; exact Hcanvas].
Qed.


End Loop.

End PipelineFacts.

Section PipelineTheorems.

Import Pillow Fetcher Compositor Pipeline.
Local Open Scope Z_scope.

Variable server : nat -> request -> response.
Variable Image_open : bytes -> result Image.
Variable convert_data : string -> Image -> result (Z -> Z -> Pixel).
Variable resample : Z * Z -> Image -> Z -> Z -> Pixel.

Local Abbreviation completion := (as_completed server Image_open convert_data resample).

Lemma task_of_inj zoom : Inj (=) (=) (task_of zoom).
Proof. intros [x y] [x' y'] H. injection H as -> ->. reflexivity. Qed.

Lemma completion_task zoom tiles completed t r :
  completion (tasks_of zoom tiles) completed -> (t, r) ∈ completed ->
  exists tile, tile ∈ tiles /\ t = task_of zoom tile.
Proof.
  intros [Hperm _] Hin.
  assert (Ht : t ∈ completed.*1) by (apply list_elem_of_fmap; exists (t, r); auto).
  rewrite Hperm in Ht. apply list_elem_of_fmap in Ht as (tile & -> & Htile). eauto.
Qed.

(** A future that returned carries the coordinates of its own task and a
    tile-sized image. *)
Lemma completion_ok zoom tiles completed t x y img flag :
  completion (tasks_of zoom tiles) completed ->
  (t, Ok (x, y, img, flag)) ∈ completed ->
  (x, y) ∈ tiles /\ t = task_of zoom (x, y) /\ size img = (TILE_SIZE, TILE_SIZE).
Proof.
  intros Hc Hin.
  destruct (completion_task _ _ _ _ _ Hc Hin) as ([tx ty] & Htile & ->).
  destruct Hc as [_ Hall]. rewrite Forall_forall in Hall.
  destruct (Hall _ Hin) as (fuel & w & w' & Hrun). simpl in Hrun.
  apply process_result_size in Hrun as (-> & -> & Hsz). auto.
Qed.

Lemma completion_NoDup zoom tiles completed :
  NoDup tiles -> completion (tasks_of zoom tiles) completed -> NoDup (completed.*1).
Proof.
  intros Hnd [Hperm _]. rewrite Hperm.
  pose proof (task_of_inj zoom) as Hinj.
  apply (NoDup_fmap_2 (task_of zoom)). exact Hnd.
Qed.



(** No other future of the run returns a tile whose rectangle meets the
    rectangle of the tile of this one. *)
Lemma completion_rects_apart zoom tiles min_x min_y before t r after px py :
  NoDup tiles ->
  completion (tasks_of zoom tiles) (before ++ (t, r) :: after) ->
  in_rect (tile_box min_x min_y (ti_x t) (ti_y t)) (TILE_SIZE, TILE_SIZE) px py = true ->
  forall t' x' y' img' flag',
    (t', Ok (x', y', img', flag')) ∈ before ++ after ->
    in_rect (tile_box min_x min_y x' y') (size img') px py = false.
Proof.
  intros Hnd Hc Hin t' x' y' img' flag' Hin'.
  pose proof (completion_NoDup _ _ _ Hnd Hc) as Hnd'.
  rewrite fmap_app, fmap_cons in Hnd'. simpl in Hnd'.
  apply NoDup_app in Hnd' as (_ & Hba & Hnd'). apply NoDup_cons in Hnd' as [Hna _].
  assert (Hin'' : (t', Ok (x', y', img', flag')) ∈ before ++ (t, r) :: after).
  { apply elem_of_app in Hin' as [H|H]; apply elem_of_app; [left|right; right]; exact H. }
  destruct (completion_ok _ _ _ _ _ _ _ _ Hc Hin'') as (_ & Ht' & ->).
  assert (Hself : (t, r) ∈ before ++ (t, r) :: after) by (apply elem_of_app; right; left).
  destruct (completion_task _ _ _ _ _ Hc Hself) as ([tx ty] & _ & Ht).
  destruct (in_rect (tile_box min_x min_y x' y') (TILE_SIZE, TILE_SIZE) px py) eqn:E;
    [|reflexivity].
  exfalso. pose proof (tile_rects_disjoint _ _ _ _ _ _ _ _ Hin E) as [= Ex Ey].
  assert (Et : t' = t).
  { rewrite Ht', Ht. rewrite Ht in Ex, Ey. simpl in Ex, Ey. rewrite Ex, Ey. reflexivity. }
  apply elem_of_app in Hin' as [H|H].
  - apply (Hba t); [|left].
    apply list_elem_of_fmap. eexists. split; [|exact H]. simpl. symmetry. exact Et.
  - apply Hna. apply list_elem_of_fmap. eexists. split; [|exact H]. simpl. symmetry. exact Et.
Qed.

Lemma count_flagged_app l1 l2 :
  count_flagged (l1 ++ l2) = count_flagged l1 + count_flagged l2.
Proof. unfold count_flagged. rewrite List.filter_app, length_app. lia. Qed.

Lemma count_flagged_cons fut l :
  count_flagged (fut :: l) = (if flagged fut then 1 else 0) + count_flagged l.
Proof. unfold count_flagged. simpl. destruct (flagged fut); simpl; lia. Qed.

(** What the script returns for a bounding box whose range is
    [(sx, ex, sy, ey)]: it saves the state the loop ends in. *)
Lemma run_saves a b c d zoom sx ex sy ey completed :
  Projection.tile_bounds a b c d zoom = Some (sx, ex, sy, ey) ->
  let tiles := Projection.tile_grid sx ex sy ey in
  let st := fold_left (collect_step sx sy (Z.of_nat (length tiles))) completed
              (initial_state tiles) in
  run a b c d zoom completed
  = Some (Saved {| final_image := final_image st;
                   custom_found := custom_found st;
                   processed_count := processed_count st;
                   printed := LogDone (custom_found st) (Z.of_nat (length tiles))
                                :: printed st |}) /\
  size (final_image (initial_state tiles)) = ((ex - sx + 1) * TILE_SIZE, (ey - sy + 1) * TILE_SIZE) /\
  py_min (tiles.*1) = sx /\ py_min (tiles.*2) = sy.
Proof.
  intros Hb tiles st.
  pose proof (tile_bounds_clamped _ _ _ _ _ _ _ _ _ Hb) as (Hx & _ & Hy & _).
  destruct (tile_grid_extremes sx ex sy ey) as (E1 & E2 & E3 & E4); [lia | lia |].
  fold tiles in E1, E2, E3, E4.
  assert (Hne : tiles <> []) by (apply tile_grid_nonempty; lia).
  split; [|split; [|split; assumption]].
  - unfold run, Projection.get_tiles_in_bbox. rewrite Hb. simpl. fold tiles.
    unfold main. subst st. rewrite E1, E3.
    destruct tiles; [congruence | reflexivity].
  - unfold initial_state. simpl. rewrite E1, E2, E3, E4. reflexivity.
Qed.


(** C2: a unit of work that raised is reported by the loop with the
    coordinates of its tile; the step that handles it pastes nothing and
    leaves the counter alone; in the saved canvas the rectangle of that tile
    still has the fill the canvas was allocated with; the counter equals the
    number of futures that returned with the flag set; and the script goes
    through every future and saves. *)
Theorem failed_tile_is_skipped a b c d zoom sx ex sy ey completed t exc :
  Projection.tile_bounds a b c d zoom = Some (sx, ex, sy, ey) ->
  completion (tasks_of zoom (Projection.tile_grid sx ex sy ey)) completed ->
  (t, Raise exc) ∈ completed ->
  exists st,
    run a b c d zoom completed = Some (Saved st) /\
    LogError (ti_x t, ti_y t) exc ∈ printed st /\
    (forall total st0,
       final_image (collect_step sx sy total st0 (t, Raise exc)) = final_image st0 /\
       custom_found (collect_step sx sy total st0 (t, Raise exc)) = custom_found st0) /\
    (forall px py,
       in_rect ((ti_x t - sx) * TILE_SIZE, (ti_y t - sy) * TILE_SIZE) (TILE_SIZE, TILE_SIZE)
         px py = true ->
       pixel (final_image st) px py = black) /\
    custom_found st = count_flagged completed /\
    flagged (t, Raise exc) = false /\
    processed_count st = Z.of_nat (length completed).
Proof.
  intros Hb Hc Hin.
  destruct (run_saves _ _ _ _ _ _ _ _ _ completed Hb) as (Hrun & Hsize & Emx & Emy).
  pose proof (NoDup_tile_grid sx ex sy ey) as Hnd.
  set (tiles := Projection.tile_grid sx ex sy ey) in *.
  eexists. split; [exact Hrun|]. simpl.
  split; [right; apply loop_logs_error; exact Hin|].
  split; [intros; split; reflexivity|].
  split; [|split; [|split]].
  - intros px py Hrect.
    rewrite loop_pixel_untouched; [reflexivity|].
    apply list_elem_of_split in Hin as (before & after & ->).
    intros t' x' y' img' flag' Hin'.
    eapply (completion_rects_apart zoom tiles); try eassumption.
    apply elem_of_app in Hin' as [H|H]; apply elem_of_app; [left; exact H|right].
    apply elem_of_cons in H as [H|H]; [discriminate H | exact H].
  - rewrite loop_custom_found. simpl. lia.
  - reflexivity.
  - rewrite loop_processed_count. simpl. lia.
Qed.

(** C10: under the two facts assumed of the library, a unit of work whose
    overlay arrives in mode RGBA or LA with alpha 0 at every pixel returns
    the flag set and a tile equal to the prepared background; and the
    counter of any run that collects this future counts it. *)
Theorem transparent_overlay_is_counted fuel (t : tile_info) (w : world) x y img flag w'
    bg0 w1 bg overlay :
  convert_keeps_alpha convert_data -> resample_keeps_alpha resample ->
  process_and_composite_tile server Image_open convert_data resample fuel t w
  = Some (Ok (x, y, img, flag), w') ->
  get_tile_image server Image_open fuel (ti_OSM_URL t (ti_zoom t) (ti_x t) (ti_y t))
    (osm_cache_path (ti_CACHE_DIR t) (ti_zoom t) (ti_x t) (ti_y t))
    (Some [("User-Agent", "meow meow/1.0")]%string) 10 5 w = Some (Ok bg0, w1) ->
  prepare_background convert_data resample (ti_TILE_SIZE t) bg0 = Ok bg ->
  get_tile_image_no_cache server Image_open fuel (ti_WPLACE_URL t (ti_x t) (ti_y t))
    None 15 5 w1 = Some (Ok overlay, w') ->
  mode overlay ∈ ["RGBA"; "LA"]%string ->
  0 < (size overlay).1 -> 0 < (size overlay).2 ->
  uniform_alpha Byte.x00 overlay ->
  flag = true /\
  (forall px py,
     in_rect (0, 0) (ti_TILE_SIZE t, ti_TILE_SIZE t) px py = true ->
     pixel img px py = pixel bg px py) /\
  (forall tiles before after st,
     main tiles (before ++ (t, Ok (x, y, img, flag)) :: after) = Saved st ->
     custom_found st = count_flagged before + 1 + count_flagged after).
Proof.
  intros Hconv Hres Hrun Hf1 Hbg Hf2 Hmode Hw Hh Hu.
  apply process_and_composite_tile_inv in Hrun
    as (bg0' & w1' & bg' & overlay' & Hf1' & Hbg' & Hf2' & Hov & _ & _).
  rewrite Hf1 in Hf1'. injection Hf1' as <- <-.
  rewrite Hbg in Hbg'. injection Hbg' as <-.
  rewrite Hf2 in Hf2'. injection Hf2' as <-.
  apply composite_overlay_inv in Hov as (ov & Hnorm & -> & ->).
  assert (Hflag : has_alpha_or_transparency overlay = true).
  { unfold has_alpha_or_transparency. rewrite bool_decide_eq_true_2 by exact Hmode.
    reflexivity. }
  split; [exact Hflag|]. split.
  - intros px py Hin.
    pose proof (prepare_background_size _ _ _ _ _ Hbg) as Hsbg.
    pose proof (normalise_overlay_size _ _ _ _ _ Hnorm) as [Hsov _].
    rewrite (pasted_overlay_pixel _ _ _ _ _ Hsbg Hsov Hin).
    rewrite (normalise_overlay_alpha _ _ _ _ _ Byte.x00 Hconv Hres Hmode
               ltac:(left; reflexivity) Hw Hh Hu Hnorm)
      by (rewrite Hsov; exact Hin).
    apply blend_pixel_transparent.
  - intros tiles before after st Hmain. unfold main in Hmain.
    destruct tiles as [|tile tiles]; [discriminate|].
    injection Hmain as <-. simpl custom_found.
    rewrite loop_custom_found, count_flagged_app, count_flagged_cons.
    unfold flagged at 1. cbn [snd]. rewrite Hflag.
    change (custom_found (initial_state (tile :: tiles))) with 0. lia.
Qed.

End PipelineTheorems.

(** ** The scenarios *)

Section ScenarioFacts.

Import Pillow Fetcher Compositor Pipeline Scenario.

(** The bounding box that is the single point (0, 0), at zoom 0, selects
    the one tile of the grid. *)
Lemma tile_bounds_origin : Projection.tile_bounds 0 0 0 0 0 = Some (0, 0, 0, 0)%Z.
Proof.
  assert (E : Projection.lat_lon_to_tile 0 0 0 = Some (1 / 2, 1 / 2)%R).
  { rewrite lat_lon_to_tile_defined by (lra || lia).
    replace (Projection.radians 0) with 0%R by (unfold Projection.radians; lra).
    rewrite cos_0, tan_0. replace (0 + 1 / 1)%R with 1%R by lra. rewrite ln_1.
    unfold Projection.grid_size. change (2 ^ Z.of_nat 0)%Z with 1%Z.
    f_equal. f_equal; [lra|]. unfold Rdiv. rewrite Rmult_0_l. lra. }
  assert (Hmin : forall x : R, Rmin x x = x) by (intros; apply Rmin_left; lra).
  assert (Hmax : forall x : R, Rmax x x = x) by (intros; apply Rmax_left; lra).
  unfold Projection.tile_bounds.
  destruct (Rgt_dec 0 0); rewrite E; simpl;
    unfold Projection.py_minR, Projection.py_maxR; simpl;
    rewrite !Hmin, !Hmax;
    assert (F : Zfloor (1 / 2) = 0%Z) by (apply Zfloor_eq; simpl; lra);
    assert (C : Zceil (1 / 2) = 1%Z)
      by (unfold Zceil; rewrite (Zfloor_eq (-1)) by (simpl; lra); reflexivity);
    rewrite F, C; reflexivity.
Qed.

Local Open Scope Z_scope.

Lemma future_of_completion server r w' :
  unit_of server = Some (r, w') ->
  as_completed server open_first_byte keep_data tiling
    (tasks_of 0 (Projection.tile_grid 0 0 0 0)) [future_of server].
Proof.
  intros E. split; [reflexivity|]. constructor; [|constructor].
  exists 1%nat, fresh, w'. unfold future_of. rewrite E. exact E.
Qed.


Lemma failed_tile_is_skipped_witness :
  exists st,
    run 0 0 0 0 0 [future_of broken] = Some (Saved st) /\
    LogError (0, 0) "cannot identify image file" ∈ printed st /\
    pixel (final_image st) 5 5 = black /\
    custom_found st = 0.
Proof.
  destruct (failed_tile_is_skipped broken open_first_byte keep_data tiling
              0 0 0 0 0 0 0 0 0 [future_of broken] (task_of 0 (0, 0))
              "cannot identify image file" tile_bounds_origin)
    as (st & Hrun & Hlog & _ & Hpix & Hcount & _).
  - eapply future_of_completion. reflexivity.
  - left.
  - exists st. split; [exact Hrun|]. split; [exact Hlog|].
    split; [apply Hpix; reflexivity | exact Hcount].
Defined.

Lemma transparent_overlay_is_counted_witness :
  exists img w',
    unit_of (serving [Byte.x00]) = Some (Ok (0, 0, img, true), w') /\
    pixel img 7 7 = mkPixel Byte.x00 Byte.x00 Byte.xff Byte.xff /\
    forall st,
      main [(0, 0)] [(task_of 0 (0, 0), Ok (0, 0, img, true))] = Saved st ->
      custom_found st = 1.
Proof.
  eexists _, _. split; [reflexivity|].
  edestruct (transparent_overlay_is_counted (serving [Byte.x00]) open_first_byte keep_data
               tiling 1 (task_of 0 (0, 0)) fresh) as (Hflag & Hpix & Hcount);
    [ exact keep_data_keeps_alpha | exact tiling_keeps_alpha
    | reflexivity | reflexivity | reflexivity | reflexivity
    | left | reflexivity | reflexivity | intros px py _; reflexivity | ].
  split.
  - apply (Hpix 7 7). reflexivity.
  - intros st Hmain. apply (Hcount [(0, 0)] [] [] st Hmain).
Defined.

End ScenarioFacts.

(** * Further properties *)

(** ** Projection: the two axes, landmarks and coverage *)

Section ProjectionExtras.

Import Projection.
Local Open Scope R_scope.

(** The argument of the logarithm grows with the angle. *)
Lemma sec_plus_tan_increasing u v :
  - (PI / 2) < u -> u < v -> v < PI / 2 ->
  tan u + 1 / cos u < tan v + 1 / cos v.
Proof.
  intros Hu Huv Hv.
  assert (Hcu : 0 < cos u) by (apply cos_gt_0; lra).
  assert (Hcv : 0 < cos v) by (apply cos_gt_0; lra).
  set (d := (v - u) / 2). set (m := (v + u) / 2).
  assert (Hsd : 0 < sin d) by (apply sin_gt_0; unfold d; lra).
  assert (Hkey : - cos d < sin m).
  { rewrite <- (sin_shift d), <- sin_neg.
    apply sin_increasing_1; unfold d, m; lra. }
  assert (Hdiff : cos v - cos u < sin (v - u)).
  { rewrite form2. fold d m.
    replace (v - u) with (2 * d) by (unfold d; lra). rewrite sin_2a. nra. }
  rewrite sin_minus in Hdiff.
  unfold tan.
  replace (sin u / cos u + 1 / cos u) with ((sin u + 1) / cos u) by (field; lra).
  replace (sin v / cos v + 1 / cos v) with ((sin v + 1) / cos v) by (field; lra).
  apply (Rmult_lt_reg_r (cos u * cos v)); [nra|].
  replace ((sin u + 1) / cos u * (cos u * cos v)) with ((sin u + 1) * cos v) by (field; lra).
  replace ((sin v + 1) / cos v * (cos u * cos v)) with ((sin v + 1) * cos u) by (field; lra).
  lra.
Qed.

Lemma radians_range lat : -90 < lat < 90 -> - (PI / 2) < radians lat < PI / 2.
Proof. intros H. pose proof PI_RGT_0. unfold radians. split; nra. Qed.

Lemma grid_size_IZR_pos zoom : 0 < IZR (grid_size zoom).
Proof. apply IZR_lt. pose proof (grid_size_pos zoom). lia. Qed.

(** The equator at the antimeridian and at the prime meridian. *)
Lemma projection_landmarks zoom :
  (zoom < 1024)%nat ->
  lat_lon_to_tile 0 (-180) zoom = Some (0, IZR (grid_size zoom) / 2) /\
  lat_lon_to_tile 0 0 zoom = Some (IZR (grid_size zoom) / 2, IZR (grid_size zoom) / 2).
Proof.
  intros Hz.
  assert (E : forall l, lat_lon_to_tile 0 l zoom
              = Some ((l + 180) / 360 * IZR (grid_size zoom), IZR (grid_size zoom) / 2)).
  { intros l. rewrite lat_lon_to_tile_defined by (lra || lia).
    replace (radians 0) with 0 by (unfold radians; lra).
    rewrite tan_0, cos_0. replace (0 + 1 / 1) with 1 by lra. rewrite ln_1.
    f_equal. f_equal. unfold Rdiv. rewrite Rmult_0_l. lra. }
  rewrite !E. split; f_equal; f_equal; lra.
Qed.

(** X1: the two coordinates are computed apart: [x] from the longitude and
    [y] from the latitude alone; and further east is never further left. *)
Theorem projection_monotone (lat1 lat2 lon1 lon2 : R) (zoom : nat) (x1 y1 x2 y2 : R) :
  lat_lon_to_tile lat1 lon1 zoom = Some (x1, y1) ->
  lat_lon_to_tile lat2 lon2 zoom = Some (x2, y2) ->
  (lon1 <= lon2 -> x1 <= x2) /\ (lon1 = lon2 -> x1 = x2) /\ (lat1 = lat2 -> y1 = y2).
Proof.
  intros (_ & -> & _ & ->)%lat_lon_to_tile_inv (_ & -> & _ & ->)%lat_lon_to_tile_inv.
  pose proof (grid_size_IZR_pos zoom) as Hn.
  split; [intros; nra|]. split; intros ->; reflexivity.
Qed.

Lemma projection_monotone_witness :
  exists x1 y1 x2 y2,
    lat_lon_to_tile 10 20 5 = Some (x1, y1) /\
    lat_lon_to_tile 30 40 5 = Some (x2, y2) /\ x1 <= x2.
Proof.
  pose proof (lat_lon_to_tile_defined 10 20 5 ltac:(lra) ltac:(lia)) as E1.
  pose proof (lat_lon_to_tile_defined 30 40 5 ltac:(lra) ltac:(lia)) as E2.
  eexists _, _, _, _. split; [exact E1|]. split; [exact E2|].
  destruct (projection_monotone _ _ _ _ _ _ _ _ _ E1 E2) as (Hx & _ & _).
  apply Hx. lra.
Defined.

(** X2: up to zoom level 1023 the equator lies at half the grid height,
    for every longitude in [-180, 180]; the antimeridian lies on the left
    and right edges of the grid and the prime meridian at half its
    width. *)
Theorem projection_equator_symmetry (lon : R) (zoom : nat) :
  (zoom < 1024)%nat -> -180 <= lon <= 180 ->
  (exists x,
     lat_lon_to_tile 0 lon zoom = Some (x, IZR (grid_size zoom) / 2) /\
     0 <= x <= IZR (grid_size zoom)) /\
  lat_lon_to_tile 0 (-180) zoom = Some (0, IZR (grid_size zoom) / 2) /\
  lat_lon_to_tile 0 0 zoom = Some (IZR (grid_size zoom) / 2, IZR (grid_size zoom) / 2) /\
  lat_lon_to_tile 0 180 zoom = Some (IZR (grid_size zoom), IZR (grid_size zoom) / 2).
Proof.
  intros Hz Hlon.
  assert (E : forall l, lat_lon_to_tile 0 l zoom
              = Some ((l + 180) / 360 * IZR (grid_size zoom), IZR (grid_size zoom) / 2)).
  { intros l. rewrite lat_lon_to_tile_defined by (lra || lia).
    replace (radians 0) with 0 by (unfold radians; lra).
    rewrite tan_0, cos_0. replace (0 + 1 / 1) with 1 by lra. rewrite ln_1.
    f_equal. f_equal. unfold Rdiv. rewrite Rmult_0_l. lra. }
  pose proof (grid_size_IZR_pos zoom) as Hn.
  rewrite !E. split; [|split; [|split]].
  - eexists. split; [reflexivity|]. split; nra.
  - f_equal. f_equal. lra.
  - f_equal. f_equal. lra.
  - f_equal. f_equal. lra.
Qed.

Lemma projection_equator_symmetry_witness :
  lat_lon_to_tile 0 0 3 = Some (4, 4) /\ lat_lon_to_tile 0 180 3 = Some (8, 4).
Proof.
  destruct (projection_equator_symmetry 0 3) as (_ & _ & E0 & E180); [lia | lra |].
  replace (IZR (grid_size 3) / 2) with 4 in E0, E180
    by (unfold grid_size; change (2 ^ Z.of_nat 3)%Z with 8%Z; lra).
  replace (IZR (grid_size 3)) with 8 in E180 by reflexivity.
  split; assumption.
Defined.

End ProjectionExtras.

Section RangeExtras.

Import Projection.
Local Open Scope R_scope.

Lemma clamp_id n v : (0 <= v <= n - 1)%Z -> clamp n v = v.
Proof. unfold clamp. lia. Qed.

Lemma Zfloor_in_grid zoom x :
  0 <= x < IZR (grid_size zoom) -> (0 <= Zfloor x <= grid_size zoom - 1)%Z.
Proof.
  intros Hx. pose proof (Zfloor_bound x) as Hf. split.
  - apply Zfloor_lub. simpl. lra.
  - enough (Zfloor x < grid_size zoom)%Z by lia. apply lt_IZR. lra.
Qed.

Lemma Zfloor_le_Zceil x y : x <= y -> (Zfloor x <= Zceil y)%Z.
Proof.
  intros H. apply le_IZR.
  pose proof (Zfloor_bound x). pose proof (Zceil_bound y). lra.
Qed.

(** X3: coverage: whenever the list is returned, it holds the tile of every
    point of the grid that lies between the projections of two opposite
    corners of the bounding box. *)
Theorem bbox_points_covered (a b c d : R) (zoom : nat) (tiles : list (Z * Z))
    (x1 y1 x2 y2 x y : R) :
  get_tiles_in_bbox a b c d zoom = Some tiles ->
  lat_lon_to_tile a c zoom = Some (x1, y1) ->
  lat_lon_to_tile b d zoom = Some (x2, y2) ->
  Rmin x1 x2 <= x <= Rmax x1 x2 -> Rmin y1 y2 <= y <= Rmax y1 y2 ->
  0 <= x < IZR (grid_size zoom) -> 0 <= y < IZR (grid_size zoom) ->
  (Zfloor x, Zfloor y) ∈ tiles.
Proof.
  intros Hg H1 H2 Hbx Hby Hx Hy.
  apply get_tiles_in_bbox_inv in Hg as (sx & ex & sy & ey & Hb & ->).
  rewrite (tile_bounds_of_corners _ _ _ _ _ _ _ _ _ H1 H2) in Hb.
  injection Hb as <- <- <- <-.
  pose proof (Zfloor_in_grid zoom x Hx) as Hfx.
  pose proof (Zfloor_in_grid zoom y Hy) as Hfy.
  pose proof (clamp_mono (grid_size zoom) _ _ (Zfloor_le _ x (proj1 Hbx))) as E1.
  pose proof (clamp_mono (grid_size zoom) _ _ (Zfloor_le_Zceil x _ (proj2 Hbx))) as E2.
  pose proof (clamp_mono (grid_size zoom) _ _ (Zfloor_le _ y (proj1 Hby))) as E3.
  pose proof (clamp_mono (grid_size zoom) _ _ (Zfloor_le_Zceil y _ (proj2 Hby))) as E4.
  rewrite (clamp_id _ _ Hfx) in E1, E2. rewrite (clamp_id _ _ Hfy) in E3, E4.
  apply elem_of_tile_grid. lia.
Qed.

Lemma bbox_points_covered_witness :
  (Zfloor (1 / 2), Zfloor 1) ∈ [(0, 1); (1, 1)]%Z.
Proof.
  assert (Hg : get_tiles_in_bbox 0 0 (-180) 0 1 = Some [(0, 1); (1, 1)]%Z).
  { unfold get_tiles_in_bbox. rewrite tile_bounds_two_tiles. reflexivity. }
  assert (Hn : IZR (grid_size 1) = 2) by reflexivity.
  destruct (projection_landmarks 1 ltac:(lia)) as (Ew & E0).
  rewrite Hn in Ew, E0. replace (2 / 2) with 1 in Ew, E0 by lra.
  apply (bbox_points_covered 0 0 (-180) 0 1 _ 0 1 1 1 (1 / 2) 1 Hg Ew E0);
    rewrite ?Hn, ?(Rmin_left 0 1), ?(Rmax_right 0 1), ?(Rmin_left 1 1), ?(Rmax_left 1 1)
      by lra; lra.
Defined.

(** X4: a bounding box that is a single point strictly inside a tile, not in
    the last column or row, selects a block of four tiles: the tile of the
    point and its neighbours to the east, south and south-east. *)
Theorem point_bbox_four_tiles (lat lon : R) (zoom : nat) (x y : R) :
  -90 < lat < 90 ->
  lat_lon_to_tile lat lon zoom = Some (x, y) ->
  IZR (Zfloor x) < x -> IZR (Zfloor y) < y ->
  (0 <= Zfloor x)%Z -> (Zfloor x + 1 <= grid_size zoom - 1)%Z ->
  (0 <= Zfloor y)%Z -> (Zfloor y + 1 <= grid_size zoom - 1)%Z ->
  get_tiles_in_bbox lat lat lon lon zoom
  = Some [(Zfloor x, Zfloor y); (Zfloor x, Zfloor y + 1);
          (Zfloor x + 1, Zfloor y); (Zfloor x + 1, Zfloor y + 1)]%Z.
Proof.
  intros Hlat Hp Hnx Hny Hx0 Hx1 Hy0 Hy1.
  pose proof (tile_bounds_of_corners _ _ _ _ _ _ _ _ _ Hp Hp) as Etb.
  rewrite (Rmin_left x x), (Rmax_left x x), (Rmin_left y y), (Rmax_left y y) in Etb by lra.
  assert (Cx : Zceil x = (Zfloor x + 1)%Z).
  { apply Zceil_eq. rewrite plus_IZR. pose proof (Zfloor_bound x). simpl. lra. }
  assert (Cy : Zceil y = (Zfloor y + 1)%Z).
  { apply Zceil_eq. rewrite plus_IZR. pose proof (Zfloor_bound y). simpl. lra. }
  unfold get_tiles_in_bbox. rewrite Etb, Cx, Cy. simpl.
  rewrite !clamp_id by lia.
  unfold tile_grid, range.
  replace (Zfloor x + 1 + 1 - Zfloor x)%Z with 2%Z by lia.
  replace (Zfloor y + 1 + 1 - Zfloor y)%Z with 2%Z by lia.
  unfold seqZ. simpl. change (Z.of_nat 0) with 0%Z. change (Z.of_nat 1) with 1%Z.
  rewrite !Z.add_0_l, !(Z.add_comm 1). reflexivity.
Qed.

Lemma point_bbox_four_tiles_witness :
  get_tiles_in_bbox 60 60 (-90) (-90) 1 = Some [(0, 0); (0, 1); (1, 0); (1, 1)]%Z.
Proof.
  pose proof (lat_lon_to_tile_defined 60 (-90) 1 ltac:(lra) ltac:(lia)) as E.
  set (l := ln (tan (radians 60) + 1 / cos (radians 60))) in E.
  set (y := (1 - l / PI) / 2 * IZR (grid_size 1)) in E.
  replace ((-90 + 180) / 360 * IZR (grid_size 1)) with (1 / 2) in E
    by (unfold grid_size; change (2 ^ Z.of_nat 1)%Z with 2%Z; lra).
  pose proof PI_RGT_0 as Hpi.
  assert (Hl : 0 < l < PI).
  { split.
    - rewrite <- ln_1. apply ln_increasing; [lra|].
      pose proof (radians_range 60 ltac:(lra)) as Hr.
      assert (H0 : 0 < radians 60) by (unfold radians; lra).
      pose proof (sec_plus_tan_increasing 0 (radians 60) ltac:(lra) H0 (proj2 Hr)) as Hinc.
      rewrite tan_0, cos_0 in Hinc. lra.
    - apply mercator_bound. unfold radians. lra. }
  assert (Hq : 0 < l / PI < 1).
  { split; [apply Rdiv_lt_0_compat; lra|].
    apply (Rmult_lt_reg_r PI); [lra|]. unfold Rdiv. rewrite Rmult_assoc, Rinv_l by lra. lra. }
  assert (Hy : 0 < y < 1).
  { unfold y, grid_size. change (2 ^ Z.of_nat 1)%Z with 2%Z. lra. }
  assert (Fx : Zfloor (1 / 2) = 0%Z) by (apply Zfloor_eq; simpl; lra).
  assert (Fy : Zfloor y = 0%Z) by (apply Zfloor_eq; simpl; lra).
  pose proof (point_bbox_four_tiles 60 (-90) 1 (1 / 2) y ltac:(lra) E) as H.
  rewrite Fx, Fy in H. apply H; simpl; try lra; try (unfold grid_size; simpl; lia).
Defined.

End RangeExtras.

Section EdgeExtras.

Import Projection.
Local Open Scope R_scope.

Lemma clamp_high n v : (1 <= n)%Z -> (n - 1 <= v)%Z -> clamp n v = (n - 1)%Z.
Proof. unfold clamp. lia. Qed.

Lemma clamp_low n v : (1 <= n)%Z -> (v <= 0)%Z -> clamp n v = 0%Z.
Proof. unfold clamp. lia. Qed.

(** X5: a bounding box that lies wholly east of longitude 180 is not
    rejected for that: whenever its range is returned, it is the last
    column of the grid; for one that lies wholly west of longitude -180 it
    is the first column. *)
Theorem bbox_outside_world_clamps (a b c d : R) (zoom : nat) (sx ex sy ey : Z) :
  tile_bounds a b c d zoom = Some (sx, ex, sy, ey) ->
  (180 <= c -> 180 <= d -> sx = (grid_size zoom - 1)%Z /\ ex = (grid_size zoom - 1)%Z) /\
  (c <= -180 -> d <= -180 -> sx = 0%Z /\ ex = 0%Z).
Proof.
  intros Hb.
  destruct (tile_bounds_corners_defined _ _ _ _ _ _ Hb) as (x1 & y1 & x2 & y2 & H1 & H2).
  rewrite (tile_bounds_of_corners _ _ _ _ _ _ _ _ _ H1 H2) in Hb.
  injection Hb as <- <- _ _.
  apply lat_lon_to_tile_inv in H1 as (_ & Ex1 & _ & _).
  apply lat_lon_to_tile_inv in H2 as (_ & Ex2 & _ & _).
  pose proof (grid_size_pos zoom) as Hn. pose proof (grid_size_IZR_pos zoom) as Hn'.
  pose proof (Zceil_bound (Rmax x1 x2)) as Hce.
  pose proof (Zfloor_bound (Rmin x1 x2)) as Hfl.
  pose proof (Rmin_l x1 x2) as Hmin1. pose proof (Rmax_l x1 x2) as Hmax1.
  split.
  - intros Hc Hd.
    assert (Hlo : IZR (grid_size zoom) <= Rmin x1 x2).
    { apply Rmin_glb; subst x1 x2; nra. }
    split; apply clamp_high; try exact Hn.
    + enough (grid_size zoom <= Zfloor (Rmin x1 x2))%Z by lia. apply Zfloor_lub. exact Hlo.
    + enough (grid_size zoom <= Zceil (Rmax x1 x2))%Z by lia. apply le_IZR. lra.
  - intros Hc Hd.
    assert (Hhi : Rmax x1 x2 <= 0).
    { apply Rmax_lub; subst x1 x2; nra. }
    split; apply clamp_low; try exact Hn.
    + enough (Zfloor (Rmin x1 x2) < 1)%Z by lia. apply lt_IZR. simpl. lra.
    + enough (Zceil (Rmax x1 x2) < 1)%Z by lia. apply lt_IZR. simpl. lra.
Qed.

Lemma bbox_outside_world_clamps_witness :
  exists sy ey, tile_bounds 10 20 200 300 2 = Some (3, 3, sy, ey)%Z.
Proof.
  destruct (tile_bounds_defined 10 20 200 300 2) as [[[[sx ex] sy] ey] E];
    [lra | lra | lia |].
  destruct (bbox_outside_world_clamps _ _ _ _ _ _ _ _ _ E) as [Heast _].
  destruct Heast as [-> ->]; [lra | lra |].
  exists sy, ey. exact E.
Defined.

End EdgeExtras.

Section GridExtras.

Import Projection.
Local Open Scope Z_scope.

Lemma length_bind_const {A B} (f : A -> list B) (m : nat) (l : list A) :
  (forall x, length (f x) = m) -> length (l ≫= f) = (length l * m)%nat.
Proof.
  intros Hf. induction l as [|x l IH]; [reflexivity|].
  rewrite bind_cons, length_app, Hf, IH. simpl. lia.
Qed.

Lemma length_tile_grid sx ex sy ey :
  sx <= ex -> sy <= ey ->
  Z.of_nat (length (tile_grid sx ex sy ey)) = (ex - sx + 1) * (ey - sy + 1).
Proof.
  intros Hx Hy. unfold tile_grid, range.
  rewrite (length_bind_const _ (Z.to_nat (ey + 1 - sy))).
  - rewrite length_seqZ. lia.
  - intros x. rewrite (length_bind_const _ 1%nat) by reflexivity.
    rewrite length_seqZ. lia.
Qed.

(** X6: the list [get_tiles_in_bbox] returns holds each tile of the clamped
    rectangle exactly once, and nothing else: its length is the number of
    columns times the number of rows. *)
Theorem tiles_enumerate_range (a b c d : R) (zoom : nat) (tiles : list (Z * Z)) :
  get_tiles_in_bbox a b c d zoom = Some tiles ->
  exists sx ex sy ey,
    tile_bounds a b c d zoom = Some (sx, ex, sy, ey) /\
    NoDup tiles /\
    (forall x y, (x, y) ∈ tiles <-> sx <= x <= ex /\ sy <= y <= ey) /\
    Z.of_nat (length tiles) = (ex - sx + 1) * (ey - sy + 1).
Proof.
  intros (sx & ex & sy & ey & Hb & ->)%get_tiles_in_bbox_inv.
  pose proof (tile_bounds_clamped _ _ _ _ _ _ _ _ _ Hb) as (Hx & _ & Hy & _).
  exists sx, ex, sy, ey. split; [exact Hb|]. split; [apply NoDup_tile_grid|]. split.
  - intros x y. apply elem_of_tile_grid.
  - apply length_tile_grid; lia.
Qed.

Lemma tiles_enumerate_range_witness :
  exists sx ex sy ey,
    tile_bounds 0 0 0 0 0 = Some (sx, ex, sy, ey) /\
    Z.of_nat (length (tile_grid 0 0 0 0)) = (ex - sx + 1) * (ey - sy + 1).
Proof.
  destruct (tiles_enumerate_range 0 0 0 0 0 (tile_grid 0 0 0 0))
    as (sx & ex & sy & ey & Hb & _ & _ & Hlen).
  - unfold get_tiles_in_bbox. rewrite tile_bounds_origin. reflexivity.
  - exists sx, ex, sy, ey. split; assumption.
Defined.

(** X7: at zoom 0 a list that is returned is the single tile (0, 0), and
    the canvas is one tile wide and one tile high; the list is returned
    for latitudes strictly between -85 and 85 degrees and longitudes in
    [-180, 180]. *)
Theorem zoom_0_single_tile (a b c d : R) (completed : list Pipeline.future) :
  (forall tiles,
     get_tiles_in_bbox a b c d 0 = Some tiles ->
     tiles = [(0, 0)] /\
     exists st,
       Pipeline.run a b c d 0 completed = Some (Pipeline.Saved st) /\
       Pillow.size (Pipeline.final_image st) = (Pipeline.TILE_SIZE, Pipeline.TILE_SIZE)) /\
  ((-85 < a < 85)%R -> (-85 < b < 85)%R -> (-180 <= c <= 180)%R -> (-180 <= d <= 180)%R ->
   get_tiles_in_bbox a b c d 0 = Some [(0, 0)]).
Proof.
  assert (Hone : forall sx ex sy ey,
            tile_bounds a b c d 0 = Some (sx, ex, sy, ey) ->
            sx = 0 /\ ex = 0 /\ sy = 0 /\ ey = 0).
  { intros sx ex sy ey E.
    pose proof (tile_bounds_clamped _ _ _ _ _ _ _ _ _ E) as (Hx & Hx' & Hy & Hy').
    change (grid_size 0) with 1 in Hx', Hy'. lia. }
  split.
  - intros tiles (sx & ex & sy & ey & E & ->)%get_tiles_in_bbox_inv.
    destruct (Hone _ _ _ _ E) as (-> & -> & -> & ->).
    split; [reflexivity|].
    destruct (run_saves _ _ _ _ _ _ _ _ _ completed E) as (Hrun & Hsize & _).
    eexists. split; [exact Hrun|]. simpl. rewrite loop_size. exact Hsize.
  - intros Ha Hb _ _.
    destruct (tile_bounds_defined a b c d 0) as [[[[sx ex] sy] ey] E]; [lra | lra | lia |].
    destruct (Hone _ _ _ _ E) as (-> & -> & -> & ->).
    unfold get_tiles_in_bbox. rewrite E. reflexivity.
Qed.

Lemma zoom_0_single_tile_witness :
  get_tiles_in_bbox (-80) 80 (-180) 180 0 = Some [(0, 0)].
Proof.
  destruct (zoom_0_single_tile (-80) 80 (-180) 180 []) as [_ H]. apply H; lra.
Defined.

(** X19: from zoom level 1024 on the grid size no longer converts to a
    float: the projection raises for every point, and with it the tile
    selection and the script. *)
Theorem projection_overflow (a b c d : R) (zoom : nat) (completed : list Pipeline.future) :
  (1024 <= zoom)%nat ->
  lat_lon_to_tile a c zoom = None /\
  get_tiles_in_bbox a b c d zoom = None /\
  Pipeline.run a b c d zoom completed = None.
Proof.
  intros Hz.
  assert (E : forall lat lon, lat_lon_to_tile lat lon zoom = None).
  { intros lat lon. unfold lat_lon_to_tile.
    rewrite (int_to_float_overflow zoom Hz). reflexivity. }
  assert (Hg : get_tiles_in_bbox a b c d zoom = None).
  { destruct (get_tiles_in_bbox a b c d zoom) as [tiles|] eqn:Eg; [|reflexivity].
    apply get_tiles_in_bbox_inv in Eg as (sx & ex & sy & ey & Hb & _).
    apply tile_bounds_corners_defined in Hb as (x1 & y1 & x2 & y2 & H1 & _).
    rewrite E in H1. discriminate. }
  split; [apply E|]. split; [exact Hg|].
  unfold Pipeline.run. rewrite Hg. reflexivity.
Qed.

Lemma projection_overflow_witness :
  lat_lon_to_tile 10 20 1024 = None /\ get_tiles_in_bbox 10 20 30 40 1024 = None.
Proof.
  destruct (projection_overflow 10 20 20 40 1024 []) as (E & _); [lia|].
  destruct (projection_overflow 10 20 30 40 1024 []) as (_ & Hg & _); [lia|].
  split; assumption.
Defined.

End GridExtras.
(** ** Fetcher: what the fetches leave on disk and on the wire *)

Section FetcherExtras.

Import Pillow Fetcher.

Variable server : nat -> request -> response.
Variable Image_open : bytes -> result Image.

(** Both loops issue the same request over and over. *)
Lemma cached_loop_requests fuel : forall url cache_path headers timeout delay w r w',
  get_tile_image_loop server Image_open fuel url cache_path headers timeout delay w = Some (r, w') ->
  exists k, requests w' = replicate (S k) (mkRequest url headers timeout) ++ requests w.
Proof.
  induction fuel as [|fuel IH]; intros url cache_path headers timeout delay w r w' Hrun;
    [discriminate|].
  destruct (succeeded (server (length (requests w)) (mkRequest url headers timeout)))
    as [content|] eqn:Hs.
  - destruct (cached_loop_returns server Image_open 0 (S fuel) url cache_path headers timeout
                delay w content) as (w1 & Hrun1 & _); [apply first_success_0; exact Hs | lia |].
    exists 0%nat. revert Hrun. simpl. unfold requests_get.
    destruct (server (length (requests w)) (mkRequest url headers timeout))
      as [code body|msg]; simpl in Hs; [|discriminate].
    destruct (code =? 200)%Z; [|discriminate]. intros [= _ <-]. reflexivity.
  - destruct (cached_loop_retries server Image_open fuel url cache_path headers timeout delay
                w Hs) as [line E].
    rewrite E in Hrun. apply IH in Hrun as [k Hk]. exists (S k). rewrite Hk. simpl.
    change (mkRequest url headers timeout :: requests w)
      with ([mkRequest url headers timeout] ++ requests w).
    rewrite app_assoc, <- replicate_cons_app. reflexivity.
Qed.

Lemma uncached_loop_requests fuel : forall url headers timeout delay w r w',
  get_tile_image_no_cache server Image_open fuel url headers timeout delay w = Some (r, w') ->
  exists k, requests w' = replicate (S k) (mkRequest url headers timeout) ++ requests w.
Proof.
  induction fuel as [|fuel IH]; intros url headers timeout delay w r w' Hrun;
    [discriminate|].
  destruct (succeeded (server (length (requests w)) (mkRequest url headers timeout)))
    as [content|] eqn:Hs.
  - exists 0%nat. revert Hrun. simpl. unfold requests_get.
    destruct (server (length (requests w)) (mkRequest url headers timeout))
      as [code body|msg]; simpl in Hs; [|discriminate].
    destruct (code =? 200)%Z; [|discriminate]. intros [= _ <-]. reflexivity.
  - destruct (uncached_loop_retries server Image_open fuel url headers timeout delay
                w Hs) as [line E].
    rewrite E in Hrun. apply IH in Hrun as [k Hk]. exists (S k). rewrite Hk. simpl.
    change (mkRequest url headers timeout :: requests w)
      with ([mkRequest url headers timeout] ++ requests w).
    rewrite app_assoc, <- replicate_cons_app. reflexivity.
Qed.

(** X8: the uncached fetch never touches the cache, and every request it
    issues is the one request it was called for. *)
Theorem uncached_fetch_never_writes fuel url headers timeout delay (w : world) r w' :
  get_tile_image_no_cache server Image_open fuel url headers timeout delay w = Some (r, w') ->
  fs w' = fs w /\
  exists k, requests w' = replicate (S k) (mkRequest url headers timeout) ++ requests w.
Proof.
  intros Hrun. split.
  - apply uncached_loop_inv in Hrun as (k & content & _ & _ & _ & Hfs & _). exact Hfs.
  - eapply uncached_loop_requests. exact Hrun.
Qed.

(** X9: the cached fetch leaves its file in the cache and touches no other
    file; an existing file is returned as it is. *)
Theorem cached_fetch_frame fuel url cache_path headers timeout delay (w : world) r w' :
  get_tile_image server Image_open fuel url cache_path headers timeout delay w = Some (r, w') ->
  (exists content, fs w' !! cache_path = Some content /\ r = Image_open content) /\
  (forall p, p <> cache_path -> fs w' !! p = fs w !! p) /\
  (forall content, fs w !! cache_path = Some content ->
     fs w' = fs w /\ requests w' = requests w).
Proof.
  intros Hrun. destruct (fs w !! cache_path) as [content|] eqn:Hc.
  - rewrite (get_tile_image_hit _ _ _ _ _ _ _ _ _ _ Hc) in Hrun. injection Hrun as <- <-.
    split; [exists content; auto|]. split; [reflexivity|]. intros _ _. split; reflexivity.
  - rewrite get_tile_image_miss in Hrun by exact Hc.
    apply cached_loop_inv in Hrun as (k & content & _ & _ & -> & Hfs & _).
    split; [|split].
    + exists content. rewrite Hfs, lookup_insert_eq. auto.
    + intros p Hp. rewrite Hfs. apply lookup_insert_ne. congruence.
    + intros content' [=].
Qed.

(** X10: a 200 whose body is no image is cached all the same: the fetch raises,
    and so does every later fetch of that key, without a request. *)
Theorem undecodable_body_is_cached k fuel url cache_path headers timeout delay
    (w : world) content exc :
  fs w !! cache_path = None ->
  first_success server (mkRequest url headers timeout) (length (requests w)) k content ->
  Image_open content = Raise exc ->
  (k < fuel)%nat ->
  exists w1,
    get_tile_image server Image_open fuel url cache_path headers timeout delay w
    = Some (Raise exc, w1) /\
    fs w1 !! cache_path = Some content /\
    forall fuel2, exists w2,
      get_tile_image server Image_open fuel2 url cache_path headers timeout delay w1
      = Some (Raise exc, w2) /\ requests w2 = requests w1.
Proof.
  intros Hmiss Hfs Hbad Hlt. rewrite get_tile_image_miss by exact Hmiss.
  destruct (cached_loop_returns server Image_open k fuel url cache_path headers timeout
              delay w content Hfs Hlt) as (w1 & Hrun & Hfs1 & _).
  rewrite Hbad in Hrun. exists w1. split; [exact Hrun|].
  assert (Hc : fs w1 !! cache_path = Some content) by (rewrite Hfs1; apply lookup_insert_eq).
  split; [exact Hc|]. intros fuel2. eexists. split.
  - rewrite (get_tile_image_hit _ _ _ _ _ _ _ _ _ _ Hc), Hbad. reflexivity.
  - reflexivity.
Qed.

End FetcherExtras.

Section FetcherExtraWitnesses.

Import Pillow Fetcher Scenario.

Lemma uncached_fetch_never_writes_witness :
  exists r w',
    get_tile_image_no_cache flaky open_white 3 "u" None 15 5 fresh = Some (r, w') /\
    fs w' = fs fresh /\ length (requests w') = 2%nat.
Proof.
  eexists _, _. split; [reflexivity|].
  edestruct (uncached_fetch_never_writes flaky open_white 3 "u" None 15 5 fresh) as [Hfs _];
    [reflexivity|].
  split; [exact Hfs | reflexivity].
Defined.

Lemma cached_fetch_frame_witness :
  exists r w',
    get_tile_image flaky open_white 3 "u" "p" None 10 5 fresh = Some (r, w') /\
    fs w' !! "p" = Some png /\ fs w' !! "q" = fs fresh !! "q".
Proof.
  eexists _, _. split; [reflexivity|].
  edestruct (cached_fetch_frame flaky open_white 3 "u" "p" None 10 5 fresh)
    as (_ & Hframe & _); [reflexivity|].
  split; [reflexivity|]. apply Hframe. discriminate.
Defined.

Lemma undecodable_body_is_cached_witness :
  exists w1,
    get_tile_image broken open_first_byte 1 "u" "p" None 10 5 fresh
    = Some (Raise "cannot identify image file", w1) /\
    fs w1 !! "p" = Some [Byte.x02].
Proof.
  destruct (undecodable_body_is_cached broken open_first_byte 0 1 "u" "p" None 10 5 fresh
              [Byte.x02] "cannot identify image file") as (w1 & Hrun & Hc & _).
  - reflexivity.
  - split; [reflexivity|]. intros i Hi. lia.
  - reflexivity.
  - lia.
  - exists w1. split; assumption.
Defined.

End FetcherExtraWitnesses.

(** ** Compositor: cache paths and the effects of a unit of work *)

Section CachePathExtras.

Import Compositor.
Local Open Scope Z_scope.

Lemma append_split_at (c : Ascii.ascii) (a : string) : forall a' r r',
  ~ In c (list_ascii_of_string a) -> ~ In c (list_ascii_of_string a') ->
  a +:+ String c r = a' +:+ String c r' -> a = a' /\ r = r'.
Proof.
  induction a as [|x a IH]; intros [|x' a'] r r' Ha Ha' E; simpl in *.
  - injection E as <-. auto.
  - injection E as <- _. tauto.
  - injection E as -> _. tauto.
  - injection E as <- E. destruct (IH a' r r') as [-> ->]; auto.
Qed.

Lemma pretty_N_go_chars x : forall s c,
  In c (list_ascii_of_string (pretty_N_go x s)) ->
  In c (list_ascii_of_string s) \/ exists d, c = pretty_N_char d.
Proof.
  induction (N.lt_wf_0 x) as [x _ IH]; intros s c Hin.
  assert (x = 0 \/ 0 < x)%N as [->|Hpos] by lia.
  - rewrite pretty_N_go_0 in Hin. auto.
  - rewrite pretty_N_go_step in Hin by exact Hpos.
    apply IH in Hin; [|apply N.div_lt; lia].
    destruct Hin as [[<-|Hin]|Hd]; eauto.
Qed.

Lemma pretty_Z_chars (z : Z) c :
  In c (list_ascii_of_string (pretty z)) ->
  c = "-"%char \/ exists d, c = pretty_N_char d.
Proof.
  assert (HN : forall n : N, In c (list_ascii_of_string (pretty n)) ->
                 exists d, c = pretty_N_char d).
  { intros n. unfold pretty, pretty_N. case_decide.
    - simpl. intros [<-|[]]. exists 0%N. reflexivity.
    - intros [[]|Hd]%pretty_N_go_chars. exact Hd. }
  destruct z as [|p|p]; unfold pretty, pretty_Z.
  - simpl. intros [<-|[]]. right. exists 0%N. reflexivity.
  - intros H. right. apply (HN (N.pos p)). exact H.
  - simpl. intros [<-|H]; [left; reflexivity|]. right. apply (HN (N.pos p)). exact H.
Qed.

Lemma pretty_N_char_not c :
  (forall d : N, (d < 10)%N -> c <> pretty_N_char d) ->
  forall d, c <> pretty_N_char d.
Proof.
  intros H d. destruct (N.lt_ge_cases d 10) as [Hlt|Hge]; [apply H; exact Hlt|].
  replace (pretty_N_char d) with (pretty_N_char 9); [apply H; lia|].
  unfold pretty_N_char.
  destruct d as [|p]; [lia|].
  do 4 (destruct p as [p|p|]; try lia; try reflexivity).
Qed.

Lemma pretty_Z_no_slash (z : Z) : ~ In "/"%char (list_ascii_of_string (pretty z)).
Proof.
  intros [E|[d E]]%pretty_Z_chars; [discriminate|].
  revert d E. apply pretty_N_char_not. intros d Hd.
  assert (d = 0 \/ d = 1 \/ d = 2 \/ d = 3 \/ d = 4 \/ d = 5 \/ d = 6 \/ d = 7 \/ d = 8
          \/ d = 9)%N as H by lia.
  repeat (destruct H as [->|H]; [discriminate|]). subst. discriminate.
Qed.

Lemma pretty_Z_no_dot (z : Z) : ~ In "."%char (list_ascii_of_string (pretty z)).
Proof.
  intros [E|[d E]]%pretty_Z_chars; [discriminate|].
  revert d E. apply pretty_N_char_not. intros d Hd.
  assert (d = 0 \/ d = 1 \/ d = 2 \/ d = 3 \/ d = 4 \/ d = 5 \/ d = 6 \/ d = 7 \/ d = 8
          \/ d = 9)%N as H by lia.
  repeat (destruct H as [->|H]; [discriminate|]). subst. discriminate.
Qed.

(** X11: under one cache directory, two tiles share a cache file only if they
    are the same tile at the same zoom level. *)
Theorem osm_cache_path_inj (cache_dir : string) (zoom x y zoom' x' y' : Z) :
  osm_cache_path cache_dir zoom x y = osm_cache_path cache_dir zoom' x' y' ->
  zoom = zoom' /\ x = x' /\ y = y'.
Proof.
  unfold osm_cache_path. intros E.
  apply (inj (String.app cache_dir)) in E. simpl in E.
  injection E as E.
  change ("/osm/" +:+ ?s)%string with (String "/" ("osm/" +:+ s)) in E.
  apply append_split_at in E as [Ez E]; try apply pretty_Z_no_slash.
  simpl in E. injection E as E.
  apply append_split_at in E as [Ex E]; try apply pretty_Z_no_slash.
  change (".png")%string with (String "." "png") in E.
  apply append_split_at in E as [Ey _]; try apply pretty_Z_no_dot.
  apply (inj pretty) in Ez, Ex, Ey. auto.
Qed.

Lemma osm_cache_path_inj_witness :
  11 = 11 /\ 3 = 3 /\ 4 = 4.
Proof.
  apply (osm_cache_path_inj "tile_cache" 11 3 4 11 3 4). reflexivity.
Defined.

End CachePathExtras.

Section UnitExtras.

Import Pillow Fetcher Compositor.
Local Open Scope Z_scope.

Variable server : nat -> request -> response.
Variable Image_open : bytes -> result Image.
Variable convert_data : string -> Image -> result (Z -> Z -> Pixel).
Variable resample : Z * Z -> Image -> Z -> Z -> Pixel.

Local Abbreviation unit_of_work :=
  (process_and_composite_tile server Image_open convert_data resample).
Local Abbreviation cache_file t :=
  (osm_cache_path (ti_CACHE_DIR t) (ti_zoom t) (ti_x t) (ti_y t)).
Local Abbreviation osm_request t :=
  (mkRequest (ti_OSM_URL t (ti_zoom t) (ti_x t) (ti_y t))
     (Some [("User-Agent", "meow meow/1.0")]%string) 10).
Local Abbreviation overlay_request t :=
  (mkRequest (ti_WPLACE_URL t (ti_x t) (ti_y t)) None 15).

(** What the cached fetch leaves behind, whatever it returned. *)
Lemma get_tile_image_effect fuel url cache_path headers timeout delay (w : world) r w' :
  get_tile_image server Image_open fuel url cache_path headers timeout delay w = Some (r, w') ->
  (exists content, fs w' !! cache_path = Some content /\ r = Image_open content) /\
  (forall p, p <> cache_path -> fs w' !! p = fs w !! p) /\
  (is_Some (fs w !! cache_path) -> fs w' = fs w /\ requests w' = requests w) /\
  exists k, requests w' = replicate k (mkRequest url headers timeout) ++ requests w.
Proof.
  intros Hrun. destruct (fs w !! cache_path) as [content|] eqn:Hc.
  - rewrite (get_tile_image_hit _ _ _ _ _ _ _ _ _ _ Hc) in Hrun. injection Hrun as <- <-.
    split; [exists content; auto|]. split; [reflexivity|].
    split; [intros _; split; reflexivity|]. exists 0%nat. reflexivity.
  - rewrite get_tile_image_miss in Hrun by exact Hc.
    pose proof (cached_loop_requests _ _ _ _ _ _ _ _ _ _ _ Hrun) as [k Hk].
    apply cached_loop_inv in Hrun as (k' & content & _ & _ & -> & Hfs & _).
    split; [|split; [|split]].
    + exists content. rewrite Hfs, lookup_insert_eq. auto.
    + intros p Hp. rewrite Hfs. apply lookup_insert_ne. congruence.
    + intros [? [=]].
    + exists (S k). exact Hk.
Qed.

(** A unit of work, finished either way, is the background fetch alone or
    the background fetch followed by the overlay fetch. *)
Lemma process_and_composite_tile_stages fuel t (w : world) r w' :
  unit_of_work fuel t w = Some (r, w') ->
  exists r1 w1,
    get_tile_image server Image_open fuel (ti_OSM_URL t (ti_zoom t) (ti_x t) (ti_y t))
      (cache_file t) (Some [("User-Agent", "meow meow/1.0")]%string) 10 5 w = Some (r1, w1) /\
    (w' = w1 \/
     exists bg0 r2,
       r1 = Ok bg0 /\
       get_tile_image_no_cache server Image_open fuel (ti_WPLACE_URL t (ti_x t) (ti_y t))
         None 15 5 w1 = Some (r2, w')).
Proof.
  unfold process_and_composite_tile.
  destruct (get_tile_image _ _ _ _ _ _ _ _ w) as [[[bg0|exc] w1]|] eqn:Ef1; try discriminate.
  - destruct (prepare_background _ _ _ bg0) as [bg|exc]; [|intros [= <- <-]; eauto].
    destruct (get_tile_image_no_cache _ _ _ _ _ _ _ w1) as [[[overlay|exc] w2]|] eqn:Ef2;
      try discriminate.
    + destruct (composite_overlay _ _ _ bg overlay) as [[img flag]|exc];
        intros [= <- <-]; eauto 10.
    + intros [= <- <-]. eauto 10.
  - intros [= <- <-]. eauto.
Qed.

(** X12: the tile a unit of work returns has the coordinates of its task, the
    size of a tile and mode RGB, whatever the two fetched images are. *)
Theorem unit_returns_rgb_tile fuel t (w : world) x y img flag w' :
  unit_of_work fuel t w = Some (Ok (x, y, img, flag), w') ->
  x = ti_x t /\ y = ti_y t /\
  size img = (ti_TILE_SIZE t, ti_TILE_SIZE t) /\ mode img = "RGB"%string.
Proof.
  intros (bg0 & w1 & bg & overlay & _ & Hbg & _ & Hov & -> & ->)%process_and_composite_tile_inv.
  apply composite_overlay_inv in Hov as (ov & _ & -> & _).
  split; [reflexivity|]. split; [reflexivity|].
  split; [apply (prepare_background_size _ _ _ _ _ Hbg)|].
  revert Hbg. unfold prepare_background. simpl.
  destruct (convert convert_data "RGB" bg0) as [rgb|exc] eqn:Ec; [|discriminate].
  apply convert_inv in Ec as (data & _ & ->). intros [= <-]. reflexivity.
Qed.

(** X13: a unit of work changes no file but the cache file of its own tile:
    the overlay is never stored. *)
Theorem unit_writes_only_its_cache_file fuel t (w : world) r w' :
  unit_of_work fuel t w = Some (r, w') ->
  (forall p, p <> cache_file t -> fs w' !! p = fs w !! p) /\
  (is_Some (fs w !! cache_file t) -> fs w' = fs w).
Proof.
  intros (r1 & w1 & Hf1 & Hrest)%process_and_composite_tile_stages.
  apply get_tile_image_effect in Hf1 as (_ & Hframe & Hhit & _).
  assert (Hfs : fs w' = fs w1).
  { destruct Hrest as [->|(bg0 & r2 & _ & Hf2)]; [reflexivity|].
    apply uncached_loop_inv in Hf2 as (k & content & _ & _ & _ & Hfs & _). exact Hfs. }
  rewrite Hfs. split; [exact Hframe|]. intros Hsome. apply Hhit. exact Hsome.
Qed.

(** X14: a cache file that is no image makes the unit of work of its tile
    raise at once, on every run, without a single request. *)
Theorem corrupt_cache_file_fails_tile fuel t (w : world) content exc :
  fs w !! cache_file t = Some content ->
  Image_open content = Raise exc ->
  exists w',
    unit_of_work fuel t w = Some (Raise exc, w') /\
    requests w' = requests w /\ fs w' = fs w.
Proof.
  intros Hc Hbad. unfold process_and_composite_tile.
  rewrite (get_tile_image_hit _ _ _ _ _ _ _ _ _ _ Hc), Hbad.
  eexists. split; [reflexivity|]. split; reflexivity.
Qed.

(** X15: once a unit of work has returned, running it again for the same tile
    fetches the background from the cache: the only requests are those
    for the overlay, and the cache stays as it is. *)
Theorem rerun_requests_only_overlay fuel t (w : world) res w1 fuel2 r2 w2 :
  unit_of_work fuel t w = Some (Ok res, w1) ->
  unit_of_work fuel2 t w1 = Some (r2, w2) ->
  fs w2 = fs w1 /\
  exists k, requests w2 = replicate k (overlay_request t) ++ requests w1.
Proof.
  intros Hrun1 Hrun2.
  assert (Hcached : is_Some (fs w1 !! cache_file t)).
  { destruct res as [[[x y] img] flag].
    apply process_and_composite_tile_inv in Hrun1
      as (bg0 & w0 & bg & overlay & Hf1 & _ & Hf2 & _).
    apply get_tile_image_effect in Hf1 as ((content & Hc & _) & _).
    apply uncached_loop_inv in Hf2 as (k & c2 & _ & _ & _ & Hfs & _).
    rewrite Hfs. eauto. }
  apply process_and_composite_tile_stages in Hrun2 as (r1 & w1' & Hf1 & Hrest).
  apply get_tile_image_effect in Hf1 as (_ & _ & Hhit & _).
  destruct (Hhit Hcached) as [Hfs1 Hrq1].
  destruct Hrest as [->|(bg0 & r2' & _ & Hf2)].
  - split; [exact Hfs1|]. exists 0%nat. exact Hrq1.
  - pose proof (uncached_loop_requests _ _ _ _ _ _ _ _ _ _ Hf2) as [k Hk].
    apply uncached_loop_inv in Hf2 as (k' & c2 & _ & _ & _ & Hfs & _).
    split; [rewrite Hfs; exact Hfs1|]. exists (S k). rewrite Hk, Hrq1. reflexivity.
Qed.

End UnitExtras.

Section UnitExtraWitnesses.

Import Pillow Fetcher Compositor Pipeline Scenario.
Local Open Scope Z_scope.

Lemma unit_returns_rgb_tile_witness :
  exists img flag w',
    unit_of (serving [Byte.x00]) = Some (Ok (0, 0, img, flag), w') /\
    size img = (1000, 1000) /\ mode img = "RGB"%string.
Proof.
  eexists _, _, _. split; [reflexivity|].
  edestruct (unit_returns_rgb_tile (serving [Byte.x00]) open_first_byte keep_data tiling 1
               (task_of 0 (0, 0)) fresh) as (_ & _ & Hsz & Hmode); [reflexivity|].
  split; [exact Hsz | exact Hmode].
Defined.

Lemma unit_writes_only_its_cache_file_witness :
  exists r w',
    unit_of (serving [Byte.x00]) = Some (r, w') /\
    fs w' !! "tile_cache/0/osm/0/1.png" = None.
Proof.
  eexists _, _. split; [reflexivity|].
  edestruct (unit_writes_only_its_cache_file (serving [Byte.x00]) open_first_byte keep_data
               tiling 1 (task_of 0 (0, 0)) fresh) as [Hframe _]; [reflexivity|].
  rewrite Hframe; [reflexivity | discriminate].
Defined.

Lemma corrupt_cache_file_fails_tile_witness :
  exists w',
    process_and_composite_tile (serving [Byte.x00]) open_first_byte keep_data tiling 0
      (task_of 0 (0, 0))
      (write_file (osm_cache_path CACHE_DIR 0 0 0) [Byte.x02] fresh)
    = Some (Raise "cannot identify image file", w') /\
    requests w' = [].
Proof.
  destruct (corrupt_cache_file_fails_tile (serving [Byte.x00]) open_first_byte keep_data
              tiling 0 (task_of 0 (0, 0))
              (write_file (osm_cache_path CACHE_DIR 0 0 0) [Byte.x02] fresh)
              [Byte.x02] "cannot identify image file") as (w' & Hrun & Hrq & _);
    [reflexivity | reflexivity |].
  exists w'. split; [exact Hrun | exact Hrq].
Defined.

Lemma rerun_requests_only_overlay_witness :
  exists res w1 r2 w2,
    unit_of (serving [Byte.x00]) = Some (Ok res, w1) /\
    process_and_composite_tile (serving [Byte.x00]) open_first_byte keep_data tiling 1
      (task_of 0 (0, 0)) w1 = Some (r2, w2) /\
    fs w2 = fs w1.
Proof.
  eexists _, _, _, _. split; [reflexivity|]. split; [reflexivity|].
  eapply proj1.
  eapply (rerun_requests_only_overlay (serving [Byte.x00]) open_first_byte keep_data
            tiling 1 (task_of 0 (0, 0)) fresh) with (fuel2 := 1%nat); reflexivity.
Defined.

End UnitExtraWitnesses.

(** ** Pipeline: order of completion, coverage and counters *)

Section PipelineExtras.

Import Pillow Fetcher Compositor Pipeline.
Local Open Scope Z_scope.

Variable server : nat -> request -> response.
Variable Image_open : bytes -> result Image.
Variable convert_data : string -> Image -> result (Z -> Z -> Pixel).
Variable resample : Z * Z -> Image -> Z -> Z -> Pixel.

Local Abbreviation completion := (as_completed server Image_open convert_data resample).

Lemma completion_Permutation tasks c1 c2 :
  c1 ≡ₚ c2 -> completion tasks c1 -> completion tasks c2.
Proof.
  intros Hperm [Hfst Hall]. split.
  - rewrite <- Hperm. exact Hfst.
  - rewrite <- Hperm. exact Hall.
Qed.

Lemma count_flagged_Permutation c1 c2 :
  c1 ≡ₚ c2 -> count_flagged c1 = count_flagged c2.
Proof.
  induction 1 as [|fut l1 l2 _ IH|f1 f2 l|l1 l2 l3 _ IH1 _ IH2].
  - reflexivity.
  - rewrite !count_flagged_cons, IH. reflexivity.
  - rewrite !count_flagged_cons. lia.
  - congruence.
Qed.

Lemma count_flagged_bounds completed :
  0 <= count_flagged completed <= Z.of_nat (length completed).
Proof.
  induction completed as [|fut l IH].
  - unfold count_flagged. simpl. lia.
  - rewrite count_flagged_cons. destruct (flagged fut); simpl length; lia.
Qed.

(** In the canvas of a run, the rectangle of a tile whose unit of work
    returned holds the returned image. *)
Lemma run_pixel_of_returned zoom tiles total completed t x y img flag px py :
  NoDup tiles ->
  completion (tasks_of zoom tiles) completed ->
  (t, Ok (x, y, img, flag)) ∈ completed ->
  in_rect (tile_box (py_min (tiles.*1)) (py_min (tiles.*2)) x y) (TILE_SIZE, TILE_SIZE) px py
  = true ->
  pixel (final_image (fold_left (collect_step (py_min (tiles.*1)) (py_min (tiles.*2)) total)
                        completed (initial_state tiles))) px py
  = pixel img (px - (tile_box (py_min (tiles.*1)) (py_min (tiles.*2)) x y).1)
      (py - (tile_box (py_min (tiles.*1)) (py_min (tiles.*2)) x y).2).
Proof.
  intros Hnd Hc Hin Hrect.
  destruct (completion_ok _ _ _ _ _ _ _ _ _ _ _ _ Hc Hin) as (Htile & Ht & Hsz).
  apply list_elem_of_split in Hin as (before & after & ->).
  apply loop_pixel_written.
  - rewrite Hsz. exact Hrect.
  - apply (tile_rect_in_canvas tiles x y); assumption.
  - intros t' x' y' img' flag' Hin'.
    eapply (completion_rects_apart _ _ _ _ zoom tiles); try eassumption.
    + rewrite Ht. exact Hrect.
    + apply elem_of_app. right. exact Hin'.
Qed.

Lemma covering_future min_x min_y px py (completed : list future) :
  (exists t x y img flag,
     (t, Ok (x, y, img, flag)) ∈ completed /\
     in_rect (tile_box min_x min_y x y) (size img) px py = true) \/
  (forall t x y img flag,
     (t, Ok (x, y, img, flag)) ∈ completed ->
     in_rect (tile_box min_x min_y x y) (size img) px py = false).
Proof.
  induction completed as [|[t r] l IH].
  - right. intros t x y img flag Hin. inversion Hin.
  - destruct IH as [(t' & x & y & img & flag & Hin & Hr)|Hnone].
    { left. exists t', x, y, img, flag. split; [right; exact Hin | exact Hr]. }
    destruct r as [[[[x y] img] flag]|exc].
    + destruct (in_rect (tile_box min_x min_y x y) (size img) px py) eqn:E.
      * left. exists t, x, y, img, flag. split; [left | exact E].
      * right. intros t' x' y' img' flag' [[= -> -> -> -> ->]|Hin]%elem_of_cons;
          [exact E | eapply Hnone; exact Hin].
    + right. intros t' x' y' img' flag' [[=]|Hin]%elem_of_cons. eapply Hnone; exact Hin.
Qed.

(** X16: the saved canvas and the counters do not depend on the order in which
    the futures complete. *)
Theorem completion_order_irrelevant zoom tiles c1 c2 st1 st2 :
  NoDup tiles ->
  completion (tasks_of zoom tiles) c1 -> c1 ≡ₚ c2 ->
  main tiles c1 = Saved st1 -> main tiles c2 = Saved st2 ->
  size (final_image st1) = size (final_image st2) /\
  (forall px py, pixel (final_image st1) px py = pixel (final_image st2) px py) /\
  custom_found st1 = custom_found st2 /\
  processed_count st1 = processed_count st2.
Proof.
  intros Hnd Hc1 Hperm Hm1 Hm2.
  pose proof (completion_Permutation _ _ _ Hperm Hc1) as Hc2.
  unfold main in Hm1, Hm2. destruct tiles as [|tile tiles']; [discriminate|].
  set (tiles := tile :: tiles') in *.
  injection Hm1 as <-. injection Hm2 as <-. simpl.
  rewrite !loop_size, !loop_custom_found, !loop_processed_count.
  rewrite (count_flagged_Permutation _ _ Hperm), (Permutation_length Hperm).
  split; [reflexivity|]. split; [|split; reflexivity].
  intros px py.
  destruct (covering_future (py_min (tiles.*1)) (py_min (tiles.*2)) px py c1)
    as [(t & x & y & img & flag & Hin & Hr)|Hnone].
  - destruct (completion_ok _ _ _ _ _ _ _ _ _ _ _ _ Hc1 Hin) as (_ & _ & Hsz).
    rewrite Hsz in Hr.
    rewrite (run_pixel_of_returned zoom tiles _ c1 t x y img flag) by assumption.
    assert (Hin2 : (t, Ok (x, y, img, flag)) ∈ c2) by (rewrite <- Hperm; exact Hin).
    rewrite (run_pixel_of_returned zoom tiles _ c2 t x y img flag) by assumption.
    reflexivity.
  - rewrite !loop_pixel_untouched; [reflexivity| |exact Hnone].
    intros t x y img flag Hin. apply (Hnone t x y img flag). rewrite Hperm. exact Hin.
Qed.

(** X17: when no unit of work raised, every pixel of the saved canvas comes
    from the tile whose rectangle holds it: nothing of the initial fill is
    left. *)
Theorem canvas_fully_covered a b c d zoom sx ex sy ey completed st :
  Projection.tile_bounds a b c d zoom = Some (sx, ex, sy, ey) ->
  completion (tasks_of zoom (Projection.tile_grid sx ex sy ey)) completed ->
  (forall t exc, (t, Raise exc) ∉ completed) ->
  run a b c d zoom completed = Some (Saved st) ->
  forall px py,
    in_rect (0, 0) (size (final_image st)) px py = true ->
    exists t x y img flag,
      (t, Ok (x, y, img, flag)) ∈ completed /\
      in_rect ((x - sx) * TILE_SIZE, (y - sy) * TILE_SIZE) (TILE_SIZE, TILE_SIZE) px py = true /\
      pixel (final_image st) px py
      = pixel img (px - (x - sx) * TILE_SIZE) (py - (y - sy) * TILE_SIZE).
Proof.
  intros Hb Hc Hok Hrun px py Hcanvas.
  destruct (run_saves _ _ _ _ _ _ _ _ _ completed Hb) as (Hrun' & Hsize & Emx & Emy).
  rewrite Hrun' in Hrun. injection Hrun as <-. simpl in Hcanvas |- *.
  rewrite loop_size, Hsize in Hcanvas.
  pose proof (tile_bounds_clamped _ _ _ _ _ _ _ _ _ Hb) as (Hx & _ & Hy & _).
  pose proof (NoDup_tile_grid sx ex sy ey) as Hnd.
  set (tiles := Projection.tile_grid sx ex sy ey) in *.
  apply in_rect_spec in Hcanvas. simpl in Hcanvas. unfold TILE_SIZE in Hcanvas.
  set (x := sx + px / 1000). set (y := sy + py / 1000).
  assert (Hqx : 0 <= px / 1000 <= ex - sx).
  { split; [apply Z.div_pos; lia|]. enough (px / 1000 < ex - sx + 1) by lia.
    apply Z.div_lt_upper_bound; lia. }
  assert (Hqy : 0 <= py / 1000 <= ey - sy).
  { split; [apply Z.div_pos; lia|]. enough (py / 1000 < ey - sy + 1) by lia.
    apply Z.div_lt_upper_bound; lia. }
  assert (Htile : (x, y) ∈ tiles) by (apply elem_of_tile_grid; unfold x, y; lia).
  assert (Hrect : in_rect (tile_box sx sy x y) (TILE_SIZE, TILE_SIZE) px py = true).
  { apply in_rect_spec. unfold tile_box, TILE_SIZE, x, y. simpl.
    pose proof (Z.div_mod px 1000 ltac:(lia)). pose proof (Z.mod_pos_bound px 1000 ltac:(lia)).
    pose proof (Z.div_mod py 1000 ltac:(lia)). pose proof (Z.mod_pos_bound py 1000 ltac:(lia)).
    lia. }
  assert (Htask : task_of zoom (x, y) ∈ completed.*1).
  { destruct Hc as [Hperm _]. rewrite Hperm. apply list_elem_of_fmap. eauto. }
  apply list_elem_of_fmap in Htask as ([t r] & Et & Hin). simpl in Et. subst t.
  destruct r as [[[[x' y'] img] flag]|exc]; [|exfalso; eapply Hok; exact Hin].
  destruct (completion_ok _ _ _ _ _ _ _ _ _ _ _ _ Hc Hin) as (_ & Ht & _).
  injection Ht as <- <-.
  exists (task_of zoom (x, y)), x, y, img, flag.
  split; [exact Hin|]. split; [exact Hrect|].
  rewrite <- Emx, <- Emy in Hrect |- *.
  apply (run_pixel_of_returned zoom tiles _ completed (task_of zoom (x, y)) x y img flag);
    assumption.
Qed.

(** X18: when the loop is over every tile has been counted once, and the
    number of custom tiles in the summary is between 0 and the total. *)
Theorem summary_counts zoom tiles completed st :
  completion (tasks_of zoom tiles) completed ->
  main tiles completed = Saved st ->
  processed_count st = Z.of_nat (length tiles) /\
  0 <= custom_found st <= Z.of_nat (length tiles) /\
  custom_found st = count_flagged completed.
Proof.
  intros [Hperm _] Hm. unfold main in Hm. destruct tiles as [|tile tiles']; [discriminate|].
  injection Hm as <-. simpl processed_count. simpl custom_found.
  rewrite loop_custom_found, loop_processed_count.
  assert (Hlen : length completed = length (tile :: tiles')).
  { apply Permutation_length in Hperm. rewrite length_fmap in Hperm.
    unfold tasks_of in Hperm. rewrite length_fmap in Hperm. exact Hperm. }
  pose proof (count_flagged_bounds completed) as Hb. rewrite Hlen in Hb.
  change (custom_found (initial_state (tile :: tiles'))) with 0.
  change (processed_count (initial_state (tile :: tiles'))) with 0.
  rewrite Hlen. lia.
Qed.

End PipelineExtras.

Section PipelineExtraWitnesses.

Import Pillow Fetcher Compositor Pipeline Scenario.
Local Open Scope Z_scope.

Lemma future_at_outcome server tile r w' :
  process_and_composite_tile server open_first_byte keep_data tiling 1 (task_of 0 tile) fresh
  = Some (r, w') ->
  outcome_of_task server open_first_byte keep_data tiling (future_at server tile).
Proof.
  intros E. exists 1%nat, fresh, w'. unfold future_at. simpl. rewrite E. reflexivity.
Qed.

Lemma two_tiles_completion :
  as_completed (serving [Byte.x01]) open_first_byte keep_data tiling
    (tasks_of 0 [(0, 0); (1, 0)])
    [future_at (serving [Byte.x01]) (0, 0); future_at (serving [Byte.x01]) (1, 0)].
Proof.
  split; [reflexivity|].
  constructor; [eapply future_at_outcome; reflexivity|].
  constructor; [eapply future_at_outcome; reflexivity|]. constructor.
Qed.

Lemma completion_order_irrelevant_witness :
  exists st1 st2,
    main [(0, 0); (1, 0)]
      [future_at (serving [Byte.x01]) (0, 0); future_at (serving [Byte.x01]) (1, 0)]
    = Saved st1 /\
    main [(0, 0); (1, 0)]
      [future_at (serving [Byte.x01]) (1, 0); future_at (serving [Byte.x01]) (0, 0)]
    = Saved st2 /\
    pixel (final_image st1) 1500 20 = pixel (final_image st2) 1500 20 /\
    custom_found st1 = custom_found st2.
Proof.
  eexists _, _. split; [reflexivity|]. split; [reflexivity|].
  edestruct (completion_order_irrelevant (serving [Byte.x01]) open_first_byte keep_data tiling
               0 [(0, 0); (1, 0)]
               [future_at (serving [Byte.x01]) (0, 0); future_at (serving [Byte.x01]) (1, 0)]
               [future_at (serving [Byte.x01]) (1, 0); future_at (serving [Byte.x01]) (0, 0)])
    as (_ & Hpix & Hcount & _).
  - apply NoDup_cons. split; [|apply NoDup_singleton].
    intros [=]%list_elem_of_singleton.
  - exact two_tiles_completion.
  - apply Permutation_swap.
  - reflexivity.
  - reflexivity.
  - split; [apply Hpix | exact Hcount].
Defined.

Lemma canvas_fully_covered_witness :
  exists st t x y img flag,
    run 0 0 0 0 0 [future_of (serving [Byte.x01])] = Some (Saved st) /\
    (t, Ok (x, y, img, flag)) ∈ [future_of (serving [Byte.x01])] /\
    pixel (final_image st) 999 999 = pixel img (999 - (x - 0) * TILE_SIZE) (999 - (y - 0) * TILE_SIZE).
Proof.
  destruct (run_saves 0 0 0 0 0 0 0 0 0 [future_of (serving [Byte.x01])] tile_bounds_origin)
    as (Hrun & _).
  match type of Hrun with _ = Some (Saved ?s) => set (st := s) in * end.
  destruct (canvas_fully_covered (serving [Byte.x01]) open_first_byte keep_data tiling
              0 0 0 0 0 0 0 0 0 [future_of (serving [Byte.x01])] st tile_bounds_origin)
    with (px := 999) (py := 999)
    as (t & x & y & img & flag & Hin & _ & Hpix).
  - eapply future_of_completion. reflexivity.
  - intros t exc [=]%list_elem_of_singleton.
  - exact Hrun.
  - reflexivity.
  - exists st, t, x, y, img, flag. split; [exact Hrun|]. split; [exact Hin | exact Hpix].
Defined.

Lemma summary_counts_witness :
  exists st,
    main [(0, 0)] [future_of (serving [Byte.x00])] = Saved st /\
    processed_count st = 1 /\ custom_found st = 1.
Proof.
  eexists. split; [reflexivity|].
  edestruct (summary_counts (serving [Byte.x00]) open_first_byte keep_data tiling
               0 [(0, 0)] [future_of (serving [Byte.x00])]) as (Hp & _ & Hc).
  - eapply (future_of_completion (serving [Byte.x00])). reflexivity.
  - reflexivity.
  - split; [exact Hp | exact Hc].
Defined.

End PipelineExtraWitnesses.
